(** * traccc dual-path reconstruction: orchestration, writers and pile-up
      simulation

    A shallow embedding of
      - [seq_run] and [main] of the CUDA sequential example
        (seeding, parameter estimation, CKF finding, KF fitting, the
        CPU mirror and the comparison block),
      - [main] of the CUDA truth-fitting example,
      - [traccc::io::mywrite] for seed collections,
      - [multi_vtx_simulator::setup_pu] and [multi_vtx_simulator::run].

    Stage algorithms, readers, the detector and the C++ <random> facilities
    are external collaborators: they appear as fields of environment
    records and every result below is stated for all of them. *)

From Stdlib Require Import ZArith List Bool String Ascii Lia QArith.
From Stdlib Require Import DecimalString.
From Stdlib Require Import Floats.SpecFloat.
From Equations Require Import Equations.
Import ListNotations.

Local Open Scope Z_scope.
Local Open Scope string_scope.

(** ** Machine integers and single-precision floats *)

Module Machine.

(** Reduction of a mathematical integer into a [w]-bit unsigned type. *)
Definition wrap (w : Z) (z : Z) : Z := z mod 2 ^ w.

Definition uint32 (z : Z) : Z := wrap 32 z.
Definition uint64 (z : Z) : Z := wrap 64 z.

(** Conversion into [int] (two's complement, 32 bits). *)
Definition int32 (z : Z) : Z := (z + 2 ^ 31) mod 2 ^ 32 - 2 ^ 31.

(** [float] is IEEE-754 binary32: 24 bits of precision, emax 128. *)
Definition float := spec_float.
Definition prec32 : Z := 24.
Definition emax32 : Z := 128.

(** Integer to [float] conversion, round to nearest even. *)
Definition float_of_Z (z : Z) : float := binary_normalize prec32 emax32 z 0 false.

Definition fdiv (x y : float) : float := SFdiv prec32 emax32 x y.

End Machine.

(** ** Counting loops over unsigned indices *)

Module Loop.
Import Machine.

(** [for (T event = first; event < bound; ++event) body], with [T] a [w]-bit
    unsigned type; [bound] is a value of that type.  The state is threaded
    through the iterations. *)
Equations? for_range (w : Z) {A : Type} (body : Z -> A -> A)
    (bound : Z) (Hb : bound < 2 ^ w) (event : Z) (st : A) : A
    by wf (Z.to_nat (bound - event)) lt :=
  for_range w body bound Hb event st with Z_lt_dec event bound => {
    | left _ := for_range w body bound Hb (wrap w (event + 1)) (body event st);
    | right _ := st }.
Proof.
  unfold wrap.
  pose proof (Z.pow_nonneg 2 w ltac:(lia)) as Hp.
  destruct (Z.eq_dec (2 ^ w) 0) as [Hz | Hz].
  - rewrite Hz, Z.mod_0_r. lia.
  - pose proof (Z.mod_pos_bound (event + 1) (2 ^ w) ltac:(lia)) as Hr.
    destruct (Z_lt_dec (event + 1) 0) as [Hn | Hn].
    + lia.
    + rewrite Z.mod_small by lia. lia.
Qed.

Lemma wrap_lt (w z : Z) : 0 <= w -> wrap w z < 2 ^ w.
Proof.
  intros Hw. unfold wrap. apply Z.mod_pos_bound. apply Z.pow_pos_nonneg; lia.
Qed.

Lemma width_32 : 0 <= 32. Proof. lia. Qed.
Lemma width_64 : 0 <= 64. Proof. lia. Qed.

(** The indices that the loop visits, in the order of the visits. *)
Definition visited (w bound : Z) (Hb : bound < 2 ^ w) (event : Z) : list Z :=
  for_range w (fun i seen => seen ++ [i])%list bound Hb event [].

(** The [n] consecutive integers from [first] on. *)
Definition indices (first : Z) (n : nat) : list Z :=
  map (fun k => first + Z.of_nat k) (seq 0 n).

End Loop.

(** ** Text streams and files *)

Module Text.

(** The character written by [std::endl]. *)
Definition newline : ascii := ascii_of_nat 10.
Definition endl : string := String newline EmptyString.
Definition comma : ascii := ","%char.

Fixpoint count_char (c : ascii) (s : string) : nat :=
  match s with
  | EmptyString => O
  | String a r => if Ascii.eqb a c then S (count_char c r) else count_char c r
  end.

Fixpoint last_char (s : string) : option ascii :=
  match s with
  | EmptyString => None
  | String a EmptyString => Some a
  | String _ r => last_char r
  end.

(** Fields of a delimited line: the pieces between occurrences of [c]. *)
Fixpoint fields (c : ascii) (s : string) : list string :=
  match s with
  | EmptyString => [EmptyString]
  | String a r =>
      if Ascii.eqb a c then EmptyString :: fields c r
      else match fields c r with
           | [] => [String a EmptyString]
           | f :: fs => String a f :: fs
           end
  end.

Definition is_digit (a : ascii) : bool :=
  let n := nat_of_ascii a in (48 <=? n)%nat && (n <=? 57)%nat.

(** Successive maximal runs of decimal digits, as found by repeatedly
    searching for one or more digits in the remaining suffix.  [cur] is
    the run being read. *)
Fixpoint digit_runs (cur : option string) (s : string) : list string :=
  match s with
  | EmptyString => match cur with Some r => [r] | None => [] end
  | String a r =>
      if is_digit a then
        digit_runs (Some (match cur with
                          | Some d => d ++ String a EmptyString
                          | None => String a EmptyString
                          end)) r
      else match cur with
           | Some d => d :: digit_runs None r
           | None => digit_runs None r
           end
  end.

(** A file system: the text stored under each path. *)
Definition files : Type := string -> option string.

Definition no_files : files := fun _ => None.

Definition store (name contents : string) (fs : files) : files :=
  fun n => if String.eqb n name then Some contents else fs n.

(** [std::ofstream]: once opening failed every insertion is ignored. *)
Record ofstream : Type := mk_ofstream {
  os_name : string;
  is_open : bool;
  os_text : string }.

(** [std::ofstream out(name)]: default mode, the file is truncated. *)
Definition open_trunc (ok : bool) (name : string) : ofstream :=
  mk_ofstream name ok "".

(** [out.open(name, std::ios::app)]: writes go after the present text. *)
Definition open_app (ok : bool) (name : string) (fs : files) : ofstream :=
  mk_ofstream name ok (match fs name with Some t => t | None => "" end).

Definition put (os : ofstream) (s : string) : ofstream :=
  if is_open os then mk_ofstream (os_name os) true (os_text os ++ s) else os.

Definition close (os : ofstream) (fs : files) : files :=
  if is_open os then store (os_name os) (os_text os) fs else fs.

End Text.

Declare Scope stream_scope.
Delimit Scope stream_scope with stream.
Infix "<<" := Text.put (at level 50, left associativity) : stream_scope.

(** ** The seed writer, [traccc::io::mywrite] *)

Module MyWrite.
Import Text.

(** A seed: three spacepoint links, a weight and the vertex z estimate. *)
Record seed (link scalar : Type) : Type := mk_seed {
  spB_link : link;
  spM_link : link;
  spT_link : link;
  weight : scalar;
  z_vertex : scalar }.

Arguments mk_seed {link scalar}.
Arguments spB_link {link scalar}.
Arguments spM_link {link scalar}.
Arguments spT_link {link scalar}.
Arguments weight {link scalar}.
Arguments z_vertex {link scalar}.

(** What the writer takes from [traccc/io/utils.hpp] and from the stream
    insertion operators of the field types. *)
Record text_io (link scalar : Type) : Type := mk_text_io {
  data_directory : string;
  get_event_filename : Z -> string -> string;
  show_link : link -> string;
  show_scalar : scalar -> string;
  show_float : Machine.float -> string;
  show_size : Z -> string }.

Arguments data_directory {link scalar}.
Arguments get_event_filename {link scalar}.
Arguments show_link {link scalar}.
Arguments show_scalar {link scalar}.
Arguments show_float {link scalar}.
Arguments show_size {link scalar}.

Section Writer.
Context {link scalar : Type} (io : text_io link scalar).

Definition seeds_header : string := "spB_link,spM_link,spT_link,weight,z_vertex".

Definition seeds_filename (event : Z) (directory device : string) : string :=
  data_directory io ++ directory ++ device ++ get_event_filename io event "-seeds.txt".

(** The insertions of one loop iteration, up to [std::endl]. *)
Definition put_seed (out : ofstream) (sd : seed link scalar) : ofstream :=
  (out << show_link io (spB_link sd) << "," << show_link io (spM_link sd) << ","
       << show_link io (spT_link sd) << ","
       << show_scalar io (weight sd) << "," << show_scalar io (z_vertex sd) << ","
       << endl)%stream.

(** The text of one data row, without the line terminator. *)
Definition seed_row (sd : seed link scalar) : string :=
  show_link io (spB_link sd) ++ "," ++ show_link io (spM_link sd) ++ "," ++
  show_link io (spT_link sd) ++ "," ++
  show_scalar io (weight sd) ++ "," ++ show_scalar io (z_vertex sd) ++ ",".

(** The data rows of a file, each closed by the line terminator. *)
Definition seed_rows (seeds : list (seed link scalar)) : string :=
  fold_right (fun sd rest => seed_row sd ++ endl ++ rest) "" seeds.

Definition mywrite (can_open : string -> bool) (event : Z) (directory : string)
    (seeds : list (seed link scalar)) (device : string) (fs : files) : files :=
  let filename := seeds_filename event directory device in
  let out_file := open_trunc (can_open filename) filename in
  let out_file := (out_file << seeds_header << endl)%stream in
  let out_file := fold_left put_seed seeds out_file in
  close out_file fs.

End Writer.

End MyWrite.

(** ** The sequential reconstruction chain, [seq_run] *)

Module SeqRun.
Import Machine Text MyWrite.

(** An element of a two-level container: a header and its items. *)
Record container_element (H I : Type) : Type := mk_element {
  header : H;
  items : list I }.

Arguments mk_element {H I}.
Arguments header {H I}.
Arguments items {H I}.

Inductive stage : Type := Seeding | ParamEstimation | Finding | Fitting.

Inductive payload : Type :=
  Spacepoints | Modules | Measurements | Seeds | Params | Candidates | States.

(** A CUDA stream handle. *)
Definition stream : Type := N.

(** The navigation scratch buffer created in one event.  [nav_event] is
    the event whose iteration creates the buffer: an iteration makes one
    call of [create_candidates_buffer], so within a run the event names the
    buffer instance; [nav_size] is the size it is created with. *)
Record nav_buffer : Type := mk_nav {
  nav_event : Z;
  nav_size : Z }.

(** The collaborators of [seq_run]: element types, readers, the stage
    algorithms of both paths, the candidate equality predicate, the width
    of the unsigned type in which buffer sizes are computed and the
    rendering of the timing table. *)
Record collaborators : Type := mk_collaborators {
  link : Type;
  scalar : Type;
  spacepoint : Type;
  cell_module : Type;
  measurement : Type;
  bound_track_parameters : Type;
  candidate_header : Type;
  fitting_result : Type;
  track_state : Type;
  io : text_io link scalar;
  read_spacepoints : Z -> string -> list spacepoint * list cell_module;
  read_measurements : Z -> string -> list measurement;
  sa : list spacepoint -> list (seed link scalar);
  sa_cuda : list spacepoint -> list (seed link scalar);
  tp : list spacepoint -> list (seed link scalar) -> float ->
       list bound_track_parameters;
  tp_cuda : list spacepoint -> list (seed link scalar) -> float ->
            list bound_track_parameters;
  host_finding : list measurement -> list bound_track_parameters ->
                 list (container_element candidate_header measurement);
  device_finding : nav_buffer -> list measurement ->
                   list bound_track_parameters ->
                   list (container_element candidate_header measurement);
  host_fitting : list (container_element candidate_header measurement) ->
                 list (container_element fitting_result track_state);
  device_fitting : nav_buffer ->
                   list (container_element candidate_header measurement) ->
                   list (container_element fitting_result track_state);
  is_same_object : list measurement -> list measurement -> bool;
  size_type_bits : Z;
  elapsed_text : string }.

(** The program options that [seq_run] reads. *)
Record options : Type := mk_options {
  skip : Z;
  events : Z;
  directory : string;
  compare_with_cpu : bool;
  performance_run : bool;
  navigation_buffer_size_scaler : Z;
  bFieldInZ : float;
  output_directory : string }.

(** When a file is opened, and how. *)
Inductive phase : Type := InEvent (event : Z) | AfterLoop.
Inductive open_mode : Type := ForAppend | ForWrite | ForRead.

(** Whether an open succeeds. *)
Definition permissions : Type := phase -> open_mode -> string -> bool.

(** The run counters, all [uint64_t]. *)
Record stats : Type := mk_stats {
  n_modules : Z;
  n_spacepoints : Z;
  n_seeds : Z;
  n_seeds_cuda : Z;
  n_found_tracks : Z;
  n_found_tracks_cuda : Z;
  n_fitted_tracks : Z;
  n_fitted_tracks_cuda : Z }.

Definition zero_stats : stats := mk_stats 0 0 0 0 0 0 0 0.

(** What the run does that is visible from outside, in program order. *)
Inductive action : Type :=
| PerfInitialize
| ReadSpacepoints (event : Z)
| ReadMeasurements (event : Z)
| CopyToDevice (p : payload) (s : stream)
| Launch (g : stage) (s : stream) (nav : option nav_buffer)
| Synchronize (s : stream)
| HostStage (g : stage)
| AllocNavigation (nav : nav_buffer)
| CopyToHostWait (p : payload) (s : stream)
| CopyToHost (p : payload)
| Banner (event : Z)
| Comparator (p : payload)
| PrintRate (rate : float)
| PrintSize (n : Z)
| PrintCudaSize (n : Z)
| Cerr (msg : string)
| MyWriteSeeds (event : Z) (dir : string)
| PerfWrite (g : stage) (event : Z)
| PerfFinalize
| PrintStatistics (s : stats).

Record run_state : Type := mk_state {
  counters : stats;
  trace : list action;
  disk : files }.

Definition size {A : Type} (l : list A) : Z := Z.of_nat (List.length l).

Section Run.
Variable c : collaborators.
Variable o : options.
Variable perm : permissions.

Definition candidates : Type :=
  list (container_element (candidate_header c) (measurement c)).
Definition track_states : Type :=
  list (container_element (fitting_result c) (track_state c)).

(** The stream created by [seq_run]; every accelerator algorithm object
    and the asynchronous copy object are constructed with it. *)
Definition the_stream : stream := 0%N.

(** Inner loop of the candidate comparison: scan the accelerator
    candidates and stop at the first one equal to the CPU candidate. *)
Fixpoint first_hit (iso : list (measurement c) -> bool) (cuda : candidates) : bool :=
  match cuda with
  | [] => false
  | cand :: rest => if iso (items cand) then true else first_hit iso rest
  end.

(** Outer loop: [n_matches] is an [unsigned int].  The recursion visits
    every CPU candidate once, which is what the index [i] of the code does
    for containers of fewer than 2^32 candidates ([matching_loop] below
    keeps the index). *)
Fixpoint count_matches (cpu cuda : candidates) (n_matches : Z) : Z :=
  match cpu with
  | [] => n_matches
  | cand :: rest =>
      let iso := is_same_object c (items cand) in
      count_matches rest cuda
        (if first_hit iso cuda then uint32 (n_matches + 1) else n_matches)
  end.

(** The two loops with their indices.  [i] and [j] are [unsigned int]s
    compared with a [std::size_t] size, and [i++], [j++] wrap at 2^32.
    [inner_scan iso cuda j hit]: the inner loop entered with index [j]
    ends, with a hit (the [break]) or without one. *)
Inductive inner_scan (iso : list (measurement c) -> bool) (cuda : candidates)
    : Z -> bool -> Prop :=
| scan_end (j : Z) :
    ~ j < size cuda -> inner_scan iso cuda j false
| scan_hit (j : Z) (cand : container_element (candidate_header c) (measurement c)) :
    j < size cuda ->
    nth_error cuda (Z.to_nat j) = Some cand ->
    iso (items cand) = true ->
    inner_scan iso cuda j true
| scan_next (j : Z) (cand : container_element (candidate_header c) (measurement c))
    (hit : bool) :
    j < size cuda ->
    nth_error cuda (Z.to_nat j) = Some cand ->
    iso (items cand) = false ->
    inner_scan iso cuda (uint32 (j + 1)) hit ->
    inner_scan iso cuda j hit.

(** [matching_loop cpu cuda i n_matches result]: the outer loop entered
    with index [i] and counter [n_matches] ends with the counter at
    [result]. *)
Inductive matching_loop (cpu cuda : candidates) : Z -> Z -> Z -> Prop :=
| matching_end (i n_matches : Z) :
    ~ i < size cpu -> matching_loop cpu cuda i n_matches n_matches
| matching_step (i n_matches : Z)
    (cand : container_element (candidate_header c) (measurement c))
    (hit : bool) (result : Z) :
    i < size cpu ->
    nth_error cpu (Z.to_nat i) = Some cand ->
    inner_scan (is_same_object c (items cand)) cuda 0 hit ->
    matching_loop cpu cuda (uint32 (i + 1))
      (if hit then uint32 (n_matches + 1) else n_matches) result ->
    matching_loop cpu cuda i n_matches result.

(** [float(n_matches) / track_candidates.size()] *)
Definition matching_rate (n_matches cpu_size : Z) : float :=
  fdiv (float_of_Z n_matches) (float_of_Z cpu_size).

Definition candidate_file : string := "track_candidate.txt".

(** The comparison block of one event, entered when the CPU mirror ran.
    The count is taken from [count_matches]: the block is modelled for
    candidate containers on which the matching loops end. *)
Definition compare_event (event : Z) (cpu cuda : candidates) (fs : files)
    : list action * files :=
  let n_matches := count_matches cpu cuda 0 in
  let rate := matching_rate n_matches (size cpu) in
  let shown :=
    [Banner event; Comparator Seeds; Comparator Params;
     PrintRate rate; PrintSize (size cpu); PrintCudaSize (size cuda)] in
  let file := open_app (perm (InEvent event) ForAppend candidate_file)
                candidate_file fs in
  if is_open file then
    let file := (file << show_float (io c) rate << " "
                      << show_size (io c) (size cpu) << " "
                      << show_size (io c) (size cuda) << endl)%stream in
    (shown, close file fs)
  else
    ((shown ++ [Cerr "Unable to open file: "])%list, fs).

Definition add_event_stats (s : stats)
    (spacepoints modules seeds_cuda seeds found_cuda found fitted_cuda fitted : Z)
    : stats :=
  mk_stats (uint64 (n_modules s + modules))
           (uint64 (n_spacepoints s + spacepoints))
           (uint64 (n_seeds s + seeds))
           (uint64 (n_seeds_cuda s + seeds_cuda))
           (uint64 (n_found_tracks s + found))
           (uint64 (n_found_tracks_cuda s + found_cuda))
           (uint64 (n_fitted_tracks s + fitted))
           (uint64 (n_fitted_tracks_cuda s + fitted_cuda)).

(** The body of the event loop. *)
Definition process_event (event : Z) (st : run_state) : run_state :=
  (* hit file reading *)
  let sp_reader_output := read_spacepoints c event (directory o) in
  let spacepoints_per_event := fst sp_reader_output in
  let modules_per_event := snd sp_reader_output in
  let measurements_per_event := read_measurements c event (directory o) in
  let t_read := [ReadSpacepoints event; ReadMeasurements event] in
  (* copies to the device *)
  let t_upload := [CopyToDevice Spacepoints the_stream;
                   CopyToDevice Modules the_stream;
                   CopyToDevice Measurements the_stream] in
  (* seeding *)
  let seeds_cuda_buffer := sa_cuda c spacepoints_per_event in
  let t_seed_cuda := [Launch Seeding the_stream None; Synchronize the_stream] in
  let seeds := if compare_with_cpu o then sa c spacepoints_per_event else [] in
  let t_seed_cpu := if compare_with_cpu o then [HostStage Seeding] else [] in
  (* track parameter estimation *)
  let params_cuda_buffer :=
    tp_cuda c spacepoints_per_event seeds_cuda_buffer (bFieldInZ o) in
  let t_params_cuda :=
    [Launch ParamEstimation the_stream None; Synchronize the_stream] in
  let params :=
    if compare_with_cpu o then tp c spacepoints_per_event seeds (bFieldInZ o)
    else [] in
  let t_params_cpu :=
    if compare_with_cpu o then [HostStage ParamEstimation] else [] in
  (* navigation buffer *)
  let navigation_buffer :=
    mk_nav event
      (wrap (size_type_bits c)
         (navigation_buffer_size_scaler o * size seeds_cuda_buffer)) in
  let t_nav := [AllocNavigation navigation_buffer] in
  (* track finding *)
  let track_candidates_cuda_buffer :=
    device_finding c navigation_buffer measurements_per_event
      params_cuda_buffer in
  let t_find_cuda := [Launch Finding the_stream (Some navigation_buffer)] in
  let track_candidates : candidates :=
    if compare_with_cpu o then host_finding c measurements_per_event params
    else [] in
  let t_find_cpu := if compare_with_cpu o then [HostStage Finding] else [] in
  (* track fitting *)
  let track_states_cuda_buffer :=
    device_fitting c navigation_buffer track_candidates_cuda_buffer in
  let t_fit_cuda := [Launch Fitting the_stream (Some navigation_buffer)] in
  let track_states : track_states :=
    if compare_with_cpu o then host_fitting c track_candidates else [] in
  let t_fit_cpu := if compare_with_cpu o then [HostStage Fitting] else [] in
  (* copies back to the host *)
  let seeds_cuda := seeds_cuda_buffer in
  let params_cuda := params_cuda_buffer in
  let track_candidates_cuda := track_candidates_cuda_buffer in
  let track_states_cuda := track_states_cuda_buffer in
  let t_download := [CopyToHostWait Seeds the_stream;
                     CopyToHostWait Params the_stream;
                     CopyToHost Candidates; CopyToHost States] in
  (* comparison *)
  let compared :=
    if compare_with_cpu o
    then compare_event event track_candidates track_candidates_cuda (disk st)
    else ([], disk st) in
  (* statistics *)
  let counters' :=
    add_event_stats (counters st)
      (size spacepoints_per_event) (size modules_per_event)
      (size seeds_cuda) (size seeds)
      (size track_candidates_cuda) (size track_candidates)
      (size track_states_cuda) (size track_states) in
  (* writer *)
  let cpu_dir := output_directory o ++ "cpu/" in
  let cuda_dir := output_directory o ++ "cuda/" in
  let can_create := perm (InEvent event) ForWrite in
  let disk' := mywrite (io c) can_create event cpu_dir seeds "" (snd compared) in
  let disk' := mywrite (io c) can_create event cuda_dir seeds_cuda "" disk' in
  let t_write := [MyWriteSeeds event cpu_dir; MyWriteSeeds event cuda_dir] in
  let t_perf :=
    if performance_run o
    then PerfWrite Seeding event :: PerfWrite Finding event ::
         map (fun _ => PerfWrite Fitting event) track_states_cuda
    else [] in
  mk_state counters'
    (trace st ++ t_read ++ t_upload ++ t_seed_cuda ++ t_seed_cpu ++
     t_params_cuda ++ t_params_cpu ++ t_nav ++ t_find_cuda ++ t_find_cpu ++
     t_fit_cuda ++ t_fit_cpu ++ t_download ++ fst compared ++ t_write ++
     t_perf)%list
    disk'.

Definition tempo_file : string := "tempo_time.txt".
Definition time_file : string := "processing_time.txt".

Definition initial_state (fs : files) : run_state :=
  mk_state zero_stats (if performance_run o then [PerfInitialize] else []) fs.

(** The event loop: [event] is a [std::size_t], and so is the bound
    [input_opts.events + input_opts.skip]. *)
Definition event_loop (st : run_state) : run_state :=
  Loop.for_range 64 process_event (uint64 (events o + skip o))
    (Loop.wrap_lt 64 (events o + skip o) Loop.width_64) (skip o) st.

(** The events that the loop visits. *)
Definition visited_events : list Z :=
  Loop.visited 64 (uint64 (events o + skip o))
    (Loop.wrap_lt 64 (events o + skip o) Loop.width_64) (skip o).

(** What follows the loop: the report, the timing files and the return
    value. *)
Definition finish (st : run_state) : run_state * Z :=
  let t_final := if performance_run o then [PerfFinalize] else [] in
  let t_stats := [PrintStatistics (counters st)] in
  let file_tempo_time :=
    open_app (perm AfterLoop ForAppend tempo_file) tempo_file (disk st) in
  let after_tempo :=
    if is_open file_tempo_time
    then ([], close (file_tempo_time << elapsed_text c << endl)%stream (disk st))
    else ([Cerr "Unable to open file: "], disk st) in
  let t0 := (trace st ++ t_final ++ t_stats ++ fst after_tempo)%list in
  let fs := snd after_tempo in
  match (if perm AfterLoop ForRead tempo_file then fs tempo_file else None) with
  | None =>
      (mk_state (counters st)
         (t0 ++ [Cerr "unable to open input file"])%list fs, 1)
  | Some text =>
      let outputFile := open_trunc (perm AfterLoop ForWrite time_file) time_file in
      if is_open outputFile then
        let outputFile :=
          fold_left (fun out m => (out << m << endl)%stream)
            (digit_runs None text) outputFile in
        (mk_state (counters st) t0 (close outputFile fs), 0)
      else
        (mk_state (counters st)
           (t0 ++ [Cerr "unable to open processing_time.txt"])%list fs, 1)
  end.

Definition seq_run (fs : files) : run_state * Z :=
  finish (event_loop (initial_state fs)).

(** The actions of one event, and the navigation buffer it creates. *)
Definition event_actions (event : Z) (fs : files) : list action :=
  trace (process_event event (mk_state zero_stats [] fs)).

Definition event_navigation_buffer (event : Z) : nav_buffer :=
  mk_nav event
    (wrap (size_type_bits c)
       (navigation_buffer_size_scaler o *
        size (sa_cuda c (fst (read_spacepoints c event (directory o)))))).

(** The candidates that the two paths hand to the comparison block. *)
Definition event_cpu_candidates (event : Z) : candidates :=
  let spacepoints := fst (read_spacepoints c event (directory o)) in
  host_finding c (read_measurements c event (directory o))
    (tp c spacepoints (sa c spacepoints) (bFieldInZ o)).

Definition event_cuda_candidates (event : Z) : candidates :=
  let spacepoints := fst (read_spacepoints c event (directory o)) in
  device_finding c (event_navigation_buffer event)
    (read_measurements c event (directory o))
    (tp_cuda c spacepoints (sa_cuda c spacepoints) (bFieldInZ o)).

End Run.

(** The events whose hits were read, in the order of the reads. *)
Fixpoint processed_events (tr : list action) : list Z :=
  match tr with
  | [] => []
  | ReadSpacepoints event :: rest => event :: processed_events rest
  | _ :: rest => processed_events rest
  end.

(** Actions that exist only on the CPU cross-check path. *)
Definition cpu_side (a : action) : bool :=
  match a with
  | HostStage _ | Banner _ | Comparator _ | PrintRate _ | PrintSize _
  | PrintCudaSize _ => true
  | _ => false
  end.

(** Work given to the accelerator, and waiting for it. *)
Definition accelerator_side (a : action) : bool :=
  match a with
  | Launch _ _ _ | Synchronize _ | CopyToHostWait _ _ | CopyToHost _ => true
  | _ => false
  end.

(** Host code that reads what the accelerator produced: the creation of
    the navigation buffer reads the size of the seed buffer on the device
    ([copy.get_size(seeds_cuda_buffer)]); the comparison, the printing, the
    seed dumps and the performance writers read the host copies. *)
Definition consumes_results (a : action) : bool :=
  match a with
  | AllocNavigation _
  | Comparator _ | PrintRate _ | PrintSize _ | PrintCudaSize _
  | MyWriteSeeds _ _ | PerfWrite _ _ => true
  | _ => false
  end.

(** The creation of the navigation buffer and the stage calls that are
    given one. *)
Definition uses_navigation (a : action) : bool :=
  match a with
  | AllocNavigation _ | Launch _ _ (Some _) => true
  | _ => false
  end.

(** The CPU counters are zero and no CPU-side action has happened. *)
Definition accelerator_only (st : run_state) : Prop :=
  n_seeds (counters st) = 0 /\
  n_found_tracks (counters st) = 0 /\
  n_fitted_tracks (counters st) = 0 /\
  Forall (fun a => cpu_side a = false) (trace st).

(** Two file systems hold the same paths. *)
Definition same_paths (fs1 fs2 : files) : Prop :=
  forall name, fs1 name = None <-> fs2 name = None.

Definition is_synchronize (a : action) : bool :=
  match a with Synchronize _ => true | _ => false end.

Definition synchronizations (tr : list action) : nat :=
  List.length (filter is_synchronize tr).

(** The CPU candidates that equal some accelerator candidate. *)
Definition matched (c : collaborators) (cuda : candidates c)
    : candidates c -> candidates c :=
  filter (fun cand =>
            existsb (fun d => is_same_object c (items cand) (items d)) cuda).

(** The same collaborators with another candidate equality predicate. *)
Definition with_same_object (c : collaborators)
    (f : list (measurement c) -> list (measurement c) -> bool) : collaborators :=
  mk_collaborators (link c) (scalar c) (spacepoint c) (cell_module c)
    (measurement c) (bound_track_parameters c) (candidate_header c)
    (fitting_result c) (track_state c) (io c) (read_spacepoints c)
    (read_measurements c) (sa c) (sa_cuda c) (tp c) (tp_cuda c)
    (host_finding c) (device_finding c) (host_fitting c) (device_fitting c)
    f (size_type_bits c) (elapsed_text c).

End SeqRun.

(** ** The truth-fitting example, [main] *)

Module TruthFit.
Import Machine SeqRun.

Record collaborators : Type := mk_collaborators {
  measurement : Type;
  candidate_header : Type;
  fitting_result : Type;
  track_state : Type;
  generate_truth_candidates :
    Z -> string -> list (container_element candidate_header measurement);
  host_fitting : list (container_element candidate_header measurement) ->
                 list (container_element fitting_result track_state);
  device_fitting : nav_buffer ->
                   list (container_element candidate_header measurement) ->
                   list (container_element fitting_result track_state) }.

Record options : Type := mk_options {
  skip : Z;
  events : Z;
  input_directory : string;
  run_cpu : bool;
  check_performance : bool }.

(** The two [std::size_t] counters of [main]. *)
Record stats : Type := mk_stats {
  n_fitted_tracks : Z;
  n_fitted_tracks_cuda : Z }.

Inductive action : Type :=
| Step (a : SeqRun.action)
| PrintFitStatistics (s : stats).

Record run_state : Type := mk_state {
  counters : stats;
  trace : list action }.

Section Main.
Variable c : collaborators.
Variable o : options.

(** The body of the event loop. *)
Definition process_event (event : Z) (st : run_state) : run_state :=
  let truth_track_candidates :=
    generate_truth_candidates c event (input_directory o) in
  let truth_track_candidates_cuda_buffer := truth_track_candidates in
  let navigation_buffer := mk_nav event (size truth_track_candidates) in
  let track_states_cuda_buffer :=
    device_fitting c navigation_buffer truth_track_candidates_cuda_buffer in
  let track_states_cuda := track_states_cuda_buffer in
  let track_states :=
    if run_cpu o then host_fitting c truth_track_candidates else [] in
  let t_cuda :=
    [Step (CopyToDevice Candidates the_stream);
     Step (AllocNavigation navigation_buffer);
     Step (Launch Fitting the_stream (Some navigation_buffer));
     Step (CopyToHost States)] in
  let t_cpu :=
    if run_cpu o
    then [Step (HostStage Fitting); Step (Banner event); Step (Comparator States)]
    else [] in
  let t_perf :=
    if check_performance o
    then map (fun _ => Step (PerfWrite Fitting event)) track_states_cuda
    else [] in
  mk_state
    (mk_stats (uint64 (n_fitted_tracks (counters st) + size track_states))
              (uint64 (n_fitted_tracks_cuda (counters st) + size track_states_cuda)))
    (trace st ++ t_cuda ++ t_cpu ++ t_perf)%list.

(** The event loop: [event] is an [unsigned int]. *)
Definition event_loop (st : run_state) : run_state :=
  Loop.for_range 32 process_event (uint32 (events o + skip o))
    (Loop.wrap_lt 32 (events o + skip o) Loop.width_32) (skip o) st.

(** [main], after option parsing: the final state and the value returned. *)
Definition main : run_state * Z :=
  let st := event_loop (mk_state (mk_stats 0 0) []) in
  let t_final :=
    if check_performance o then [Step PerfFinalize] else [] in
  (mk_state (counters st)
     (trace st ++ t_final ++ [PrintFitStatistics (counters st)])%list,
   1).

End Main.

(** The events for which a navigation buffer was created, in order. *)
Fixpoint processed_events (tr : list action) : list Z :=
  match tr with
  | [] => []
  | Step (AllocNavigation nav) :: rest => nav_event nav :: processed_events rest
  | _ :: rest => processed_events rest
  end.

End TruthFit.

(** ** Pile-up simulation, [multi_vtx_simulator] *)

Module PileUp.
Import Machine.

(** The literal bounds that [setup_pu] passes to the generator. *)
Inductive bound : Type := Pi | MinusPi | Num (q : Q).

(** The C++ <random> facilities used by [setup_pu]: the default engine
    seeded with a value, the normal distribution object with its own
    state, and a draw from a distribution, converted to [float]. *)
Record random_source : Type := mk_random_source {
  engine : Type;
  distribution : Type;
  coordinate : Type;
  zero_coordinate : coordinate;
  seed_engine : Z -> engine;
  normal_distribution : Q -> Q -> distribution;
  draw : distribution -> engine -> coordinate * distribution * engine }.

(** The configuration of one random track generator. *)
Record configuration (coordinate : Type) : Type := mk_configuration {
  n_tracks : Z;
  origin : coordinate * coordinate * coordinate;
  origin_stddev : coordinate * coordinate * coordinate;
  phi_range : bound * bound;
  eta_range : bound * bound;
  mom_range : bound * bound;
  randomize_charge : bool;
  seed : Z }.

Arguments mk_configuration {coordinate}.
Arguments n_tracks {coordinate}.
Arguments origin {coordinate}.
Arguments origin_stddev {coordinate}.
Arguments phi_range {coordinate}.
Arguments eta_range {coordinate}.
Arguments mom_range {coordinate}.
Arguments randomize_charge {coordinate}.
Arguments seed {coordinate}.

(** What the simulator takes from the generators, the propagator and the
    writer: the default seed of a fresh configuration and the conversion
    into its seed type; the generator object built from a configuration
    ([std::make_unique<generator_type>(pu_gen_cfg)]); one pass over a
    generator used as a range, which yields tracks and leaves the
    generator object, a member of the simulator, in the state in which the
    next pass finds it; the scatterer state set from an event number, one
    propagation, and the particle id a fresh writer state starts from.
    [main_generator] is the template parameter [track_generator_t]. *)
Record collaborators (R : random_source) : Type := mk_collaborators {
  track : Type;
  hit : Type;
  scatterer : Type;
  main_generator : Type;
  generator : Type;
  default_seed : Z;
  seed_cast : Z -> Z;
  make_generator : configuration (coordinate R) -> generator;
  main_pass : main_generator -> list track * main_generator;
  generate : generator -> list track * generator;
  set_seed : Z -> scatterer;
  propagate : scatterer -> track -> list hit * scatterer;
  first_particle_id : Z }.

Arguments track {R}.
Arguments hit {R}.
Arguments scatterer {R}.
Arguments main_generator {R}.
Arguments generator {R}.
Arguments default_seed {R}.
Arguments seed_cast {R}.
Arguments make_generator {R}.
Arguments main_pass {R}.
Arguments generate {R}.
Arguments set_seed {R}.
Arguments propagate {R}.
Arguments first_particle_id {R}.

Section Simulator.
Variable R : random_source.
Variable c : collaborators R.

(** The state that the loop of [setup_pu] threads: the engine, the three
    distribution objects and the generators pushed so far, each given by
    the configuration from which it is constructed. *)
Record pu_state : Type := mk_pu_state {
  pu_engine : engine R;
  distz : distribution R;
  distx : distribution R;
  disty : distribution R;
  m_pu_track_generators : list (configuration (coordinate R)) }.

(** One iteration of the vertex loop. *)
Definition add_vertex (ntrk_per_vtx : Z) (i : Z) (st : pu_state) : pu_state :=
  let '(zpos, dz, e1) := draw R (distz st) (pu_engine st) in
  let '(xpos, dx, e2) := draw R (distx st) e1 in
  let '(ypos, dy, e3) := draw R (disty st) e2 in
  let zero := zero_coordinate R in
  let pu_gen_cfg :=
    mk_configuration ntrk_per_vtx (xpos, ypos, zpos) (zero, zero, zero)
      (MinusPi, Pi) (Num (-4), Num 4) (Num 1, Num 10) true
      (seed_cast c (default_seed c + i)) in
  mk_pu_state e3 dz dx dy (m_pu_track_generators st ++ [pu_gen_cfg])%list.

Lemma int32_lt (z : Z) : int32 z < 2 ^ 31.
Proof.
  unfold int32.
  pose proof (Z.mod_pos_bound (z + 2 ^ 31) (2 ^ 32) ltac:(lia)). lia.
Qed.

(** [setup_pu]: [entropy] is the value that the [std::random_device]
    returns; [nvtx] and [ntrk_per_vtx] are [int]s.  The index [i] runs in
    [0, nvtx), where incrementing an [int] cannot overflow. *)
Definition setup_pu (entropy : Z) (nvtx ntrk_per_vtx : Z)
    : list (configuration (coordinate R)) :=
  let start :=
    mk_pu_state (seed_engine R entropy)
      (normal_distribution R 0 54)
      (normal_distribution R 0 (4 # 100))
      (normal_distribution R 0 (4 # 100)) [] in
  m_pu_track_generators
    (Loop.for_range 31 (add_vertex ntrk_per_vtx) (int32 nvtx)
       (int32_lt nvtx) 0 start).

(** The writer state of one event. *)
Record writer_state : Type := mk_writer_state {
  particle_id : Z;
  particles : list (Z * track c * list (hit c)) }.

(** The body shared by the two track loops of [run]: write the particle,
    propagate it, increase the particle id. *)
Fixpoint simulate_tracks (tracks : list (track c))
    (st : writer_state * scatterer c) : writer_state * scatterer c :=
  match tracks with
  | [] => st
  | trk :: rest =>
      let '(ws, sc) := st in
      let '(hits, sc') := propagate c sc trk in
      simulate_tracks rest
        (mk_writer_state (particle_id ws + 1)
           (particles ws ++ [(particle_id ws, trk, hits)])%list, sc')
  end.

(** The loop over the pile-up generators of one event: each generator is
    passed over once, in order, and is left advanced. *)
Fixpoint simulate_generators (gens : list (generator c))
    (st : writer_state * scatterer c)
    : writer_state * scatterer c * list (generator c) :=
  match gens with
  | [] => (st, [])
  | gen :: rest =>
      let pass := generate c gen in
      let done := simulate_generators rest (simulate_tracks (fst pass) st) in
      (fst done, snd pass :: snd done)
  end.

(** One event of [run]: a fresh writer state, the scatterer seeded with
    the event number, the tracks of the main generator, then those of
    every pile-up generator in order.  The result is the writer state of
    the event and the generators as the event leaves them. *)
Definition simulate_event (event_id : Z) (m_track_generator : main_generator c)
    (gens : list (generator c))
    : writer_state * main_generator c * list (generator c) :=
  let start := (mk_writer_state (first_particle_id c) [], set_seed c event_id) in
  let pass := main_pass c m_track_generator in
  let after_main := simulate_tracks (fst pass) start in
  let done := simulate_generators gens after_main in
  (fst (fst done), snd pass, snd done).

(** What the event loop of [run] threads: the two generator members and
    the writer states of the events done. *)
Record simulator : Type := mk_simulator {
  m_track_generator : main_generator c;
  generators : list (generator c);
  written : list writer_state }.

Definition run_event (event_id : Z) (sim : simulator) : simulator :=
  let event := simulate_event event_id (m_track_generator sim) (generators sim) in
  mk_simulator (snd (fst event)) (snd event)
    (written sim ++ [fst (fst event)])%list.

(** [run]: the writer states of the events [0 .. m_events), for the main
    generator [main] and the pile-up generators that [setup_pu] left. *)
Definition run (m_events : Z) (main : main_generator c)
    (pu : list (configuration (coordinate R))) : list writer_state :=
  written
    (Loop.for_range 64 run_event (uint64 m_events)
       (Loop.wrap_lt 64 m_events Loop.width_64) 0
       (mk_simulator main (map (make_generator c) pu) [])).

(** A generator after [k] passes, and the number of tracks that its next
    pass yields. *)
Fixpoint after_passes (gen : generator c) (k : nat) : generator c :=
  match k with
  | O => gen
  | S k' => after_passes (snd (generate c gen)) k'
  end.

Fixpoint main_after_passes (main : main_generator c) (k : nat) : main_generator c :=
  match k with
  | O => main
  | S k' => main_after_passes (snd (main_pass c main)) k'
  end.

Definition pass_count (gen : generator c) (k : nat) : nat :=
  List.length (fst (generate c (after_passes gen k))).

(** A configuration with its vertex position erased. *)
Definition without_origin (g : configuration (coordinate R))
    : Z * bool * Z * (bound * bound) * (bound * bound) * (bound * bound) :=
  (n_tracks g, randomize_charge g, seed g, phi_range g, eta_range g, mom_range g).

End Simulator.

(** What [setup_pu] fixes for the vertex of index [i], whatever is drawn. *)
Definition fixed_part {R : random_source} (c : collaborators R) (ntrk_per_vtx i : Z)
    : Z * bool * Z * (bound * bound) * (bound * bound) * (bound * bound) :=
  (ntrk_per_vtx, true, seed_cast c (default_seed c + i),
   (MinusPi, Pi), (Num (-4), Num 4), (Num 1, Num 10)).

(** The particle ids and the tracks written in an event, in order. *)
Definition written_ids {R : random_source} {c : collaborators R}
    (ws : writer_state R c) : list Z :=
  map (fun p => fst (fst p)) (particles R c ws).

Definition written_tracks {R : random_source} {c : collaborators R}
    (ws : writer_state R c) : list (track c) :=
  map (fun p => snd (fst p)) (particles R c ws).

(** The number of particles written in each event of a run. *)
Definition particle_counts {R : random_source} (c : collaborators R)
    (events : list (writer_state R c)) : list nat :=
  map (fun ws => List.length (particles R c ws)) events.

(** The claim that the generators set up do not depend on the value read
    from the random device. *)
Definition setup_pu_ignores_entropy : Prop :=
  forall (R : random_source) (c : collaborators R) (e1 e2 nvtx ntrk : Z),
    setup_pu R c e1 nvtx ntrk = setup_pu R c e2 nvtx ntrk.

End PileUp.

(** ** The other writers of [traccc::io::mywrite] *)

Module Writers.
Import Machine Text MyWrite.

(** The fields that the writers read.  Integer fields (channels, surface
    indices) are [Z]; links and scalars are the types of the seed writer. *)
Module Cell.
Record t (link scalar : Type) : Type := mk {
  module_link : link;
  channel0 : Z;
  channel1 : Z;
  time : scalar;
  activation : scalar }.
Arguments mk {link scalar}.
Arguments module_link {link scalar}.
Arguments channel0 {link scalar}.
Arguments channel1 {link scalar}.
Arguments time {link scalar}.
Arguments activation {link scalar}.
End Cell.

Module CellModule.
Record t (scalar : Type) : Type := mk {
  surface_index : Z;
  threshold : scalar;
  min_corner_x : scalar;
  min_corner_y : scalar;
  pitch_x : scalar;
  pitch_y : scalar }.
Arguments mk {scalar}.
Arguments surface_index {scalar}.
Arguments threshold {scalar}.
Arguments min_corner_x {scalar}.
Arguments min_corner_y {scalar}.
Arguments pitch_x {scalar}.
Arguments pitch_y {scalar}.
End CellModule.

Module Measurement.
Record t (link scalar : Type) : Type := mk {
  module_link : link;
  local0 : scalar;
  local1 : scalar;
  variance0 : scalar;
  variance1 : scalar }.
Arguments mk {link scalar}.
Arguments module_link {link scalar}.
Arguments local0 {link scalar}.
Arguments local1 {link scalar}.
Arguments variance0 {link scalar}.
Arguments variance1 {link scalar}.
End Measurement.

Module Spacepoint.
Record t (scalar : Type) : Type := mk {
  surface_index : Z;
  x : scalar;
  y : scalar;
  z : scalar;
  radius : scalar }.
Arguments mk {scalar}.
Arguments surface_index {scalar}.
Arguments x {scalar}.
Arguments y {scalar}.
Arguments z {scalar}.
Arguments radius {scalar}.
End Spacepoint.

Module Params.
Record t (scalar : Type) : Type := mk {
  surface_index : Z;
  loc0 : scalar;
  loc1 : scalar;
  phi : scalar;
  theta : scalar;
  qop : scalar;
  time : scalar }.
Arguments mk {scalar}.
Arguments surface_index {scalar}.
Arguments loc0 {scalar}.
Arguments loc1 {scalar}.
Arguments phi {scalar}.
Arguments theta {scalar}.
Arguments qop {scalar}.
Arguments time {scalar}.
End Params.

Module FitResult.
Record t (scalar : Type) : Type := mk {
  fit_params : Params.t scalar;
  ndf : scalar;
  chi2 : scalar }.
Arguments mk {scalar}.
Arguments fit_params {scalar}.
Arguments ndf {scalar}.
Arguments chi2 {scalar}.
End FitResult.

Section Overloads.
Context {link scalar : Type} (io : text_io link scalar).
Variable can_open : string -> bool.

Definition filename (event : Z) (directory device suffix : string) : string :=
  data_directory io ++ directory ++ device ++ get_event_filename io event suffix.

(** Cells. *)
Definition cells_header : string := "module_link,channel0,channel1,timestamp,value".

Definition put_cell (out : ofstream) (cl : Cell.t link scalar) : ofstream :=
  (out << show_link io (Cell.module_link cl) << ","
       << show_size io (Cell.channel0 cl) << ","
       << show_size io (Cell.channel1 cl) << ","
       << show_scalar io (Cell.time cl) << ","
       << show_scalar io (Cell.activation cl) << endl)%stream.

Definition mywrite_cells (event : Z) (directory : string)
    (cells : list (Cell.t link scalar)) (device : string) (fs : files) : files :=
  let name := filename event directory device "-cells.txt" in
  let out_file := open_trunc (can_open name) name in
  let out_file := (out_file << cells_header << endl)%stream in
  close (fold_left put_cell cells out_file) fs.

(** Modules. *)
Definition modules_header : string :=
  "geometry_id,threshold,min_center_x,min_center_y,pitch_x,pitch_y".

Definition put_module (out : ofstream) (md : CellModule.t scalar) : ofstream :=
  (out << show_size io (CellModule.surface_index md) << ","
       << show_scalar io (CellModule.threshold md) << ","
       << show_scalar io (CellModule.min_corner_x md) << ","
       << show_scalar io (CellModule.min_corner_y md) << ","
       << show_scalar io (CellModule.pitch_x md) << ","
       << show_scalar io (CellModule.pitch_y md) << endl)%stream.

Definition mywrite_modules (event : Z) (directory : string)
    (modules : list (CellModule.t scalar)) (device : string) (fs : files) : files :=
  let name := filename event directory device "-modules.txt" in
  let out_file := open_trunc (can_open name) name in
  let out_file := (out_file << modules_header << endl)%stream in
  close (fold_left put_module modules out_file) fs.

(** Measurements. *)
Definition measurements_header : string := "module_link,local0,local1,var0,var1".

Definition put_measurement (out : ofstream) (am : Measurement.t link scalar)
    : ofstream :=
  (out << show_link io (Measurement.module_link am) << ","
       << show_scalar io (Measurement.local0 am) << ","
       << show_scalar io (Measurement.local1 am) << ","
       << show_scalar io (Measurement.variance0 am) << ","
       << show_scalar io (Measurement.variance1 am) << endl)%stream.

Definition mywrite_measurements (event : Z) (directory : string)
    (measurements : list (Measurement.t link scalar)) (device : string)
    (fs : files) : files :=
  let name := filename event directory device "-measurements.txt" in
  let out_file := open_trunc (can_open name) name in
  let out_file := (out_file << measurements_header << endl)%stream in
  close (fold_left put_measurement measurements out_file) fs.

(** Track parameters. *)
Definition params_header : string := "surface_index,loc0,loc1,phi,theta,qoverp,time".

Definition put_params_fields (out : ofstream) (tp : Params.t scalar) : ofstream :=
  (out << show_size io (Params.surface_index tp)
       << "," << show_scalar io (Params.loc0 tp)
       << "," << show_scalar io (Params.loc1 tp)
       << "," << show_scalar io (Params.phi tp)
       << "," << show_scalar io (Params.theta tp)
       << "," << show_scalar io (Params.qop tp)
       << "," << show_scalar io (Params.time tp))%stream.

Definition put_params (out : ofstream) (tp : Params.t scalar) : ofstream :=
  (put_params_fields out tp << endl)%stream.

Definition mywrite_params (event : Z) (directory : string)
    (params : list (Params.t scalar)) (device : string) (fs : files) : files :=
  let name := filename event directory device "-params.txt" in
  let out_file := open_trunc (can_open name) name in
  let out_file := (out_file << params_header << endl)%stream in
  close (fold_left put_params params out_file) fs.

(** Fitted tracks: an index loop over [n_tracks], an [unsigned int] that
    receives the size of the container. *)
Definition fitted_header : string :=
  "surface_index,loc0,loc1,phi,theta,qoverp,time,ndf,chi2".

Definition put_fitted (out : ofstream) (tf : FitResult.t scalar) : ofstream :=
  (put_params_fields out (FitResult.fit_params tf)
       << "," << show_scalar io (FitResult.ndf tf)
       << "," << show_scalar io (FitResult.chi2 tf) << endl)%stream.

Definition put_fitted_at {I : Type}
    (tracks : list (SeqRun.container_element (FitResult.t scalar) I))
    (i : Z) (out : ofstream) : ofstream :=
  match nth_error tracks (Z.to_nat i) with
  | Some trk => put_fitted out (SeqRun.header trk)
  | None => out
  end.

Definition mywrite_fitted {I : Type} (event : Z) (directory : string)
    (tracks : list (SeqRun.container_element (FitResult.t scalar) I))
    (device : string) (fs : files) : files :=
  let name := filename event directory device "-fitted.txt" in
  let out_file := open_trunc (can_open name) name in
  let out_file := (out_file << fitted_header << endl)%stream in
  let n_tracks := uint32 (SeqRun.size tracks) in
  close (Loop.for_range 32 (put_fitted_at tracks) n_tracks
           (Loop.wrap_lt 32 (SeqRun.size tracks) Loop.width_32) 0 out_file) fs.

(** Spacepoints.  The stream carries its floating-point precision, which
    [std::setprecision] changes for every later insertion;
    [show_scalar_at p] is the insertion of a scalar at precision [p]. *)
Variable show_scalar_at : nat -> scalar -> string.

Record pstream : Type := mk_pstream {
  ps_out : ofstream;
  ps_precision : nat }.

Definition default_precision : nat := 6.

Definition put_text (ps : pstream) (t : string) : pstream :=
  mk_pstream (ps_out ps << t)%stream (ps_precision ps).

Definition setprecision (n : nat) (ps : pstream) : pstream :=
  mk_pstream (ps_out ps) n.

Definition put_scalar (ps : pstream) (v : scalar) : pstream :=
  put_text ps (show_scalar_at (ps_precision ps) v).

Definition spacepoints_header : string := "module_link,x,y,z,r".

Definition put_spacepoint (ps : pstream) (sp : Spacepoint.t scalar) : pstream :=
  let ps := put_text ps (show_size io (Spacepoint.surface_index sp)) in
  let ps := put_text ps "," in
  let ps := put_scalar (setprecision 12 ps) (Spacepoint.x sp) in
  let ps := put_text ps "," in
  let ps := put_scalar (setprecision 12 ps) (Spacepoint.y sp) in
  let ps := put_text ps "," in
  let ps := put_scalar (setprecision 12 ps) (Spacepoint.z sp) in
  let ps := put_text ps "," in
  let ps := put_scalar ps (Spacepoint.radius sp) in
  put_text ps endl.

Definition mywrite_spacepoints (event : Z) (directory : string)
    (spacepoints : list (Spacepoint.t scalar)) (device : string) (fs : files)
    : files :=
  let name := filename event directory device "-spacepoints.txt" in
  let out_file := mk_pstream (open_trunc (can_open name) name) default_precision in
  let out_file := put_text (put_text out_file spacepoints_header) endl in
  close (ps_out (fold_left put_spacepoint spacepoints out_file)) fs.

(** The text of one data row of each writer, without the line
    terminator. *)
Definition cell_row (cl : Cell.t link scalar) : string :=
  show_link io (Cell.module_link cl) ++ "," ++
  show_size io (Cell.channel0 cl) ++ "," ++
  show_size io (Cell.channel1 cl) ++ "," ++
  show_scalar io (Cell.time cl) ++ "," ++
  show_scalar io (Cell.activation cl).

Definition module_row (md : CellModule.t scalar) : string :=
  show_size io (CellModule.surface_index md) ++ "," ++
  show_scalar io (CellModule.threshold md) ++ "," ++
  show_scalar io (CellModule.min_corner_x md) ++ "," ++
  show_scalar io (CellModule.min_corner_y md) ++ "," ++
  show_scalar io (CellModule.pitch_x md) ++ "," ++
  show_scalar io (CellModule.pitch_y md).

Definition measurement_row (am : Measurement.t link scalar) : string :=
  show_link io (Measurement.module_link am) ++ "," ++
  show_scalar io (Measurement.local0 am) ++ "," ++
  show_scalar io (Measurement.local1 am) ++ "," ++
  show_scalar io (Measurement.variance0 am) ++ "," ++
  show_scalar io (Measurement.variance1 am).

Definition params_row (tp : Params.t scalar) : string :=
  show_size io (Params.surface_index tp) ++ "," ++
  show_scalar io (Params.loc0 tp) ++ "," ++
  show_scalar io (Params.loc1 tp) ++ "," ++
  show_scalar io (Params.phi tp) ++ "," ++
  show_scalar io (Params.theta tp) ++ "," ++
  show_scalar io (Params.qop tp) ++ "," ++
  show_scalar io (Params.time tp).

Definition fitted_row (tf : FitResult.t scalar) : string :=
  params_row (FitResult.fit_params tf) ++ "," ++
  show_scalar io (FitResult.ndf tf) ++ "," ++
  show_scalar io (FitResult.chi2 tf).

Definition spacepoint_row (sp : Spacepoint.t scalar) : string :=
  show_size io (Spacepoint.surface_index sp) ++ "," ++
  show_scalar_at 12 (Spacepoint.x sp) ++ "," ++
  show_scalar_at 12 (Spacepoint.y sp) ++ "," ++
  show_scalar_at 12 (Spacepoint.z sp) ++ "," ++
  show_scalar_at 12 (Spacepoint.radius sp).

End Overloads.

(** The rows of a file, each closed by the line terminator. *)
Definition rows_text {X : Type} (row : X -> string) (l : list X) : string :=
  fold_right (fun x rest => row x ++ endl ++ rest) "" l.

End Writers.

(** ** Concrete collaborators used to run the model *)

Module Demo.
Import Machine Text MyWrite.

Definition decimal (z : Z) : string := NilZero.string_of_int (Z.to_int z).

Definition show_rate (x : float) : string :=
  match x with
  | S754_nan => "nan"
  | S754_zero _ => "0"
  | S754_infinity _ => "inf"
  | S754_finite _ m e => decimal (Zpos m) ++ "p" ++ decimal e
  end.

(** Links are indices; scalars are integer valued. *)
Definition io : text_io N Z :=
  mk_text_io N Z "data/" (fun event suffix => "event" ++ decimal event ++ suffix)
    (fun l => decimal (Z.of_N l)) decimal show_rate decimal.

Definition one_seed : seed N Z := mk_seed 1%N 2%N 3%N 5 0.

(** A detector in which every event with at least three spacepoints gives
    one seed on both paths; event 1 has no spacepoints.  The accelerator
    finds one more candidate than the CPU. *)
Definition spacepoints_of (event : Z) : list Z :=
  if (event =? 1)%Z then [] else [10; 20; 30; 40].

Definition seeding (sps : list Z) : list (seed N Z) :=
  match sps with
  | _ :: _ :: _ :: _ => [one_seed]
  | _ => []
  end.

Definition finding (extra : bool) (meas params : list Z)
    : list (SeqRun.container_element Z Z) :=
  match params with
  | [] => []
  | _ :: _ =>
      if extra
      then [SeqRun.mk_element 0 meas; SeqRun.mk_element 1 (rev meas)]
      else [SeqRun.mk_element 0 meas]
  end.

Definition fitting (cands : list (SeqRun.container_element Z Z))
    : list (SeqRun.container_element unit unit) :=
  map (fun cand => SeqRun.mk_element tt (map (fun _ => tt) (SeqRun.items cand)))
    cands.

Definition same_measurements (a b : list Z) : bool :=
  if list_eq_dec Z.eq_dec a b then true else false.

Definition chain : SeqRun.collaborators :=
  SeqRun.mk_collaborators N Z Z unit Z Z Z unit unit io
    (fun event _ => (spacepoints_of event, [tt; tt]))
    (fun event _ => [event; event + 1])
    seeding seeding
    (fun _ seeds _ => map (fun _ => 0) seeds)
    (fun _ seeds _ => map (fun _ => 0) seeds)
    (finding false) (fun _ => finding true)
    fitting (fun _ => fitting)
    same_measurements 32 "Wall time 12 ms".

Definition opts (compare : bool) : SeqRun.options :=
  SeqRun.mk_options 0 3 "in/" compare false 20 (float_of_Z 2) "out/".

Definition allow_all : SeqRun.permissions := fun _ _ _ => true.

(** [track_candidate.txt] cannot be opened during event 0, and
    [tempo_time.txt] cannot be opened for appending. *)
Definition deny_appends : SeqRun.permissions :=
  fun ph mode name =>
    match ph, mode with
    | SeqRun.InEvent 0, SeqRun.ForAppend => false
    | SeqRun.AfterLoop, SeqRun.ForAppend => false
    | _, _ => true
    end.


(** The truth-fitting collaborators. *)
Definition truth : TruthFit.collaborators :=
  TruthFit.mk_collaborators Z Z unit unit
    (fun event _ => [SeqRun.mk_element event [event]])
    fitting (fun _ => fitting).

Definition truth_opts : TruthFit.options :=
  TruthFit.mk_options 2 3 "in/" true false.

(** The minimal standard linear congruential engine, with a sampler that
    hands out the raw engine output. *)
Definition minstd_modulus : Z := 2147483647.

Definition minstd_seed (value : Z) : Z :=
  let s := value mod minstd_modulus in if (s =? 0)%Z then 1 else s.

Definition minstd_next (state : Z) : Z := (16807 * state) mod minstd_modulus.

Definition rng : PileUp.random_source :=
  PileUp.mk_random_source Z unit Z 0 minstd_seed (fun _ _ => tt)
    (fun d e => (minstd_next e, d, minstd_next e)).

(** Generators that count: the main generator yields one track per pass,
    numbered from 100 on; a pile-up generator is its configuration and the
    number of its next track, starts at its seed and yields [n_tracks]
    tracks per pass. *)
Definition pile_up_pass (gen : PileUp.configuration Z * Z)
    : list Z * (PileUp.configuration Z * Z) :=
  (map (fun k => snd gen + Z.of_nat k)
     (seq 0 (Z.to_nat (PileUp.n_tracks (fst gen)))),
   (fst gen, snd gen + PileUp.n_tracks (fst gen))).

Definition sim_with (seed_cast : Z -> Z) : PileUp.collaborators rng :=
  PileUp.mk_collaborators rng Z Z Z Z (PileUp.configuration Z * Z) 42 seed_cast
    (fun cfg => (cfg, PileUp.seed cfg))
    (fun main => ([100 + main], main + 1))
    pile_up_pass
    (fun event => event)
    (fun sc trk => ([trk + sc], sc + 1))
    0.

Definition sim : PileUp.collaborators rng := sim_with (fun z => z).

End Demo.

(** ** Further sample collaborators *)

Module Samples.

(** The sample chain with the accelerator stages computing what the CPU
    stages compute. *)
Definition agreeing_chain : SeqRun.collaborators :=
  SeqRun.mk_collaborators N Z Z unit Z Z Z unit unit Demo.io
    (fun event _ => (Demo.spacepoints_of event, [tt; tt]))
    (fun event _ => [event; event + 1])
    Demo.seeding Demo.seeding
    (fun _ seeds _ => map (fun _ => 0) seeds)
    (fun _ seeds _ => map (fun _ => 0) seeds)
    (Demo.finding true) (fun _ => Demo.finding true)
    Demo.fitting (fun _ => Demo.fitting)
    Demo.same_measurements 32 "Wall time 12 ms".

(** The sample chain with an accelerator seeding that returns two seeds,
    and options with a navigation buffer size scaler of 2^31. *)
Definition two_seed_chain : SeqRun.collaborators :=
  SeqRun.mk_collaborators N Z Z unit Z Z Z unit unit Demo.io
    (fun event _ => (Demo.spacepoints_of event, [tt; tt]))
    (fun event _ => [event; event + 1])
    Demo.seeding (fun _ => [Demo.one_seed; Demo.one_seed])
    (fun _ seeds _ => map (fun _ => 0) seeds)
    (fun _ seeds _ => map (fun _ => 0) seeds)
    (Demo.finding false) (fun _ => Demo.finding true)
    Demo.fitting (fun _ => Demo.fitting)
    Demo.same_measurements 32 "Wall time 12 ms".

Definition large_scaler_opts : SeqRun.options :=
  SeqRun.mk_options 0 3 "in/" true false (2 ^ 31) (Machine.float_of_Z 2) "out/".


(** A container of 2^32 candidates. *)
Definition crowd : SeqRun.candidates Demo.chain :=
  repeat (SeqRun.mk_element 0 [1; 2]) (Z.to_nat (2 ^ 32)).

(** The sample simulation with a 64-bit seed type. *)
Definition sim64 : PileUp.collaborators Demo.rng := Demo.sim_with Machine.uint64.

End Samples.

(** ** Vocabulary of the further properties *)

Module Measures.
Import Text SeqRun.

(** The sum of [f] over a list of events. *)
Definition total (f : Z -> Z) (l : list Z) : Z :=
  fold_right (fun e acc => f e + acc) 0 l.


Fixpoint all_digits (t : string) : bool :=
  match t with
  | EmptyString => true
  | String a r => is_digit a && all_digits r
  end.

(** The digits of a text, in order. *)
Fixpoint digits_of (t : string) : string :=
  match t with
  | EmptyString => EmptyString
  | String a r => if is_digit a then String a (digits_of r) else digits_of r
  end.

(** A token of the number extraction: a non-empty string of digits. *)
Definition token_ok (t : string) : Prop := t <> EmptyString /\ all_digits t = true.

(** The run of digits being read, if any. *)
Definition pending (cur : option string) : string :=
  match cur with Some d => d | None => EmptyString end.

Definition pending_ok (cur : option string) : Prop :=
  match cur with Some d => token_ok d | None => True end.

(** The lines of the number file: each token closed by the terminator. *)
Definition number_lines (tokens : list string) : string :=
  Writers.rows_text (fun m => m) tokens.

End Measures.

(** * Properties *)

(** ** Loops *)

Section LoopFacts.
Import Machine Loop.
Context (w : Z) {A : Type} (body : Z -> A -> A) (bound : Z) (Hb : bound < 2 ^ w).

Lemma for_range_body (event : Z) (st : A) :
  for_range w body bound Hb event st =
  if Z_lt_dec event bound
  then for_range w body bound Hb (wrap w (event + 1)) (body event st)
  else st.
Proof.
  rewrite for_range_unfold_eq. unfold for_range_unfold.
  destruct (Z_lt_dec event bound); reflexivity.
Qed.

Lemma wrap_step (event : Z) :
  event < bound -> (Z.to_nat (bound - wrap w (event + 1)) < Z.to_nat (bound - event))%nat.
Proof.
  intros Hlt. unfold wrap.
  pose proof (Z.pow_nonneg 2 w ltac:(lia)) as Hp.
  destruct (Z.eq_dec (2 ^ w) 0) as [Hz | Hz].
  - rewrite Hz, Z.mod_0_r. lia.
  - pose proof (Z.mod_pos_bound (event + 1) (2 ^ w) ltac:(lia)) as Hr.
    destruct (Z_lt_dec (event + 1) 0) as [Hn | Hn].
    + lia.
    + rewrite Z.mod_small by lia. lia.
Qed.

(** Induction over the iterations of the loop. *)
Lemma for_range_ind (P : Z -> Prop) :
  (forall event, ~ event < bound -> P event) ->
  (forall event, event < bound -> P (wrap w (event + 1)) -> P event) ->
  forall event, P event.
Proof.
  intros Hstop Hstep event.
  remember (Z.to_nat (bound - event)) as m eqn:Hm.
  revert event Hm.
  induction m as [m IH] using lt_wf_ind. intros event Hm.
  destruct (Z_lt_dec event bound) as [Hlt | Hge].
  - apply Hstep; [exact Hlt |].
    apply (IH (Z.to_nat (bound - wrap w (event + 1)))); [| reflexivity].
    subst m. apply wrap_step. exact Hlt.
  - apply Hstop. exact Hge.
Qed.

End LoopFacts.

Lemma indices_cons (first : Z) (n : nat) :
  Loop.indices first (S n) = first :: Loop.indices (first + 1) n.
Proof.
  unfold Loop.indices. simpl. rewrite Z.add_0_r. f_equal.
  rewrite <- seq_shift, map_map. apply map_ext. intros k. lia.
Qed.

Section LoopFold.
Import Machine Loop.
Context (w : Z) (bound : Z) (Hb : bound < 2 ^ w).

Lemma visited_acc (event : Z) (seen : list Z) :
  for_range w (fun i l => l ++ [i])%list bound Hb event seen =
  (seen ++ visited w bound Hb event)%list.
Proof.
  revert seen. pattern event. apply (for_range_ind w bound Hb); clear event.
  - intros event Hge seen. unfold visited.
    rewrite (for_range_body _ _ _ _ event seen).
    rewrite (for_range_body _ _ _ _ event []).
    destruct (Z_lt_dec event bound); [contradiction |].
    now rewrite app_nil_r.
  - intros event Hlt IH seen. unfold visited.
    rewrite (for_range_body _ _ _ _ event seen).
    rewrite (for_range_body _ _ _ _ event []).
    destruct (Z_lt_dec event bound); [| contradiction].
    rewrite IH. rewrite (IH ([] ++ [event])%list).
    now rewrite <- app_assoc.
Qed.

Lemma visited_unfold (event : Z) :
  visited w bound Hb event =
  if Z_lt_dec event bound then event :: visited w bound Hb (wrap w (event + 1))
  else [].
Proof.
  unfold visited at 1. rewrite for_range_body.
  destruct (Z_lt_dec event bound); [| reflexivity].
  now rewrite visited_acc.
Qed.

(** The loop is a left fold of its body over the visited indices. *)
Lemma for_range_fold {A : Type} (body : Z -> A -> A) (event : Z) (st : A) :
  for_range w body bound Hb event st =
  fold_left (fun s i => body i s) (visited w bound Hb event) st.
Proof.
  revert st. pattern event. apply (for_range_ind w bound Hb); clear event.
  - intros event Hge st. rewrite for_range_body, visited_unfold.
    destruct (Z_lt_dec event bound); [contradiction | reflexivity].
  - intros event Hlt IH st. rewrite for_range_body, visited_unfold.
    destruct (Z_lt_dec event bound); [| contradiction].
    simpl. apply IH.
Qed.

(** Without wrap-around the visited indices are the consecutive integers
    from the first one up to the bound. *)
Lemma visited_indices (n : nat) (first : Z) :
  0 <= first -> first + Z.of_nat n = bound ->
  visited w bound Hb first = indices first n.
Proof.
  revert first. induction n as [| n IH]; intros first H0 Hn.
  - rewrite visited_unfold. destruct (Z_lt_dec first bound); [lia | reflexivity].
  - rewrite visited_unfold. destruct (Z_lt_dec first bound); [| lia].
    rewrite indices_cons. f_equal.
    assert (Hw : wrap w (first + 1) = first + 1).
    { unfold wrap. apply Z.mod_small. lia. }
    rewrite Hw. apply IH; lia.
Qed.

Lemma visited_empty (first : Z) : bound <= first -> visited w bound Hb first = [].
Proof.
  intros H. rewrite visited_unfold. destruct (Z_lt_dec first bound); [lia | reflexivity].
Qed.

End LoopFold.

Lemma in_indices (first i : Z) (n : nat) :
  In i (Loop.indices first n) <-> first <= i < first + Z.of_nat n.
Proof.
  unfold Loop.indices. rewrite in_map_iff. split.
  - intros [k [Hk Hin]]. apply in_seq in Hin. lia.
  - intros H. exists (Z.to_nat (i - first)). split; [lia |].
    apply in_seq. lia.
Qed.

(** ** The event loops *)

Section SeqRunFacts.
Import Machine Text MyWrite SeqRun.
Variable c : collaborators.
Variable o : options.
Variable perm : permissions.

Lemma event_loop_fold (st : run_state) :
  event_loop c o perm st =
  fold_left (fun s event => process_event c o perm event s) (visited_events o) st.
Proof. unfold event_loop, visited_events. apply for_range_fold. Qed.

(** A property kept by every event holds after the loop. *)
Lemma event_loop_invariant (P : run_state -> Prop) (st : run_state) :
  (forall event s, P s -> P (process_event c o perm event s)) ->
  P st -> P (event_loop c o perm st).
Proof.
  intros Hstep. rewrite event_loop_fold.
  generalize (visited_events o). intros l. revert st. induction l as [| e l IH]; intros st H; simpl.
  - exact H.
  - apply IH. apply Hstep. exact H.
Qed.

Lemma process_event_trace (event : Z) (st : run_state) :
  trace (process_event c o perm event st) =
  (trace st ++ event_actions c o perm event (disk st))%list.
Proof. reflexivity. Qed.



Lemma compare_event_actions (event : Z) (cpu cuda : candidates c) (fs : files) :
  let shown :=
    [Banner event; Comparator Seeds; Comparator Params;
     PrintRate (matching_rate (count_matches c cpu cuda 0) (size cpu));
     PrintSize (size cpu); PrintCudaSize (size cuda)] in
  fst (compare_event c perm event cpu cuda fs) =
  if perm (InEvent event) ForAppend candidate_file then shown
  else (shown ++ [Cerr "Unable to open file: "])%list.
Proof.
  unfold compare_event, open_app. simpl.
  destruct (perm (InEvent event) ForAppend candidate_file); reflexivity.
Qed.


End SeqRunFacts.



Section TruthFitFacts.
Import Machine SeqRun TruthFit.
Variable c : TruthFit.collaborators.
Variable o : TruthFit.options.





End TruthFitFacts.




(** ** The run without the CPU cross-check *)

Section CpuDisabled.
Import Machine Text MyWrite SeqRun.
Variable c : collaborators.
Variable o : options.
Variable perm : permissions.
Hypothesis disabled : compare_with_cpu o = false.

Lemma initial_accelerator_only (fs : files) :
  accelerator_only (initial_state o fs).
Proof.
  unfold accelerator_only, initial_state. cbn.
  repeat split. destruct (performance_run o); repeat constructor.
Qed.

Lemma process_event_accelerator_only (event : Z) (st : run_state) :
  accelerator_only st -> accelerator_only (process_event c o perm event st).
Proof.
  intros (Hs & Hf & Ht & Htr).
  unfold accelerator_only, process_event. rewrite disabled.
  cbn [counters trace add_event_stats n_seeds n_found_tracks n_fitted_tracks
       fst snd size List.length].
  rewrite Hs, Hf, Ht. repeat split; try reflexivity.
  rewrite !Forall_app. repeat split; try exact Htr; repeat constructor.
  destruct (performance_run o); repeat constructor.
  apply Forall_forall. intros a Ha. apply in_map_iff in Ha.
  destruct Ha as [x [<- _]]. reflexivity.
Qed.

Lemma finish_accelerator_only (st : run_state) :
  accelerator_only st -> accelerator_only (fst (finish c o perm st)).
Proof.
  intros (Hs & Hf & Ht & Htr).
  unfold accelerator_only, finish, open_app, open_trunc. cbn [is_open].
  repeat match goal with
  | |- context [if ?b then _ else _] => destruct b
  | |- context [match ?x with Some _ => _ | None => _ end] => destruct x
  end; cbn [fst snd counters trace]; repeat split; try assumption;
  rewrite ?Forall_app; repeat split; try assumption; repeat constructor.
Qed.

Lemma finish_prints_statistics (st : run_state) :
  In (PrintStatistics (counters (fst (finish c o perm st))))
     (trace (fst (finish c o perm st))).
Proof.
  unfold finish, open_app, open_trunc. cbn [is_open].
  repeat match goal with
  | |- context [if ?b then _ else _] => destruct b
  | |- context [match ?x with Some _ => _ | None => _ end] => destruct x
  end; cbn [fst snd counters trace]; rewrite ?in_app_iff; cbn [In]; tauto.
Qed.

End CpuDisabled.

(** C4. In a run with [compare_with_cpu] false the CPU counters [n_seeds],
    [n_found_tracks] and [n_fitted_tracks] are still zero when the
    statistics are printed, the comparator is never invoked, and no other
    action of the CPU path (host stage, event banner, match-rate report)
    occurs. *)
Theorem cpu_disabled_leaves_cpu_counters_zero
    (c : SeqRun.collaborators) (o : SeqRun.options) (perm : SeqRun.permissions)
    (fs : Text.files) :
  SeqRun.compare_with_cpu o = false ->
  let final := fst (SeqRun.seq_run c o perm fs) in
  SeqRun.n_seeds (SeqRun.counters final) = 0 /\
  SeqRun.n_found_tracks (SeqRun.counters final) = 0 /\
  SeqRun.n_fitted_tracks (SeqRun.counters final) = 0 /\
  In (SeqRun.PrintStatistics (SeqRun.counters final)) (SeqRun.trace final) /\
  (forall p, ~ In (SeqRun.Comparator p) (SeqRun.trace final)) /\
  (forall a, In a (SeqRun.trace final) -> SeqRun.cpu_side a = false).
Proof.
  intros Hoff final.
  assert (H : SeqRun.accelerator_only final).
  { subst final. unfold SeqRun.seq_run. apply finish_accelerator_only.
    apply event_loop_invariant.
    - intros event s. now apply process_event_accelerator_only.
    - apply initial_accelerator_only. }
  destruct H as (Hs & Hf & Ht & Htr).
  rewrite Forall_forall in Htr.
  repeat split; try assumption.
  - apply finish_prints_statistics.
  - intros p Hin. apply Htr in Hin. discriminate.
Qed.

(** The sample run without the cross-check ends with no CPU seed counted. *)
Lemma cpu_disabled_leaves_cpu_counters_zero_witness :
  SeqRun.n_seeds
    (SeqRun.counters
       (fst (SeqRun.seq_run Demo.chain (Demo.opts false) Demo.allow_all
               Text.no_files))) = 0.
Proof.
  exact (proj1 (cpu_disabled_leaves_cpu_counters_zero Demo.chain (Demo.opts false)
                  Demo.allow_all Text.no_files ltac:(reflexivity))).
Defined.

(** ** Text *)

Lemma append_assoc (a b d : string) : ((a ++ b) ++ d = a ++ (b ++ d))%string.
Proof.
  induction a as [| x a IH]; simpl; [reflexivity | now rewrite IH].
Qed.

Lemma append_empty_r (a : string) : (a ++ "" = a)%string.
Proof.
  induction a as [| x a IH]; simpl; [reflexivity | now rewrite IH].
Qed.

(** ** The candidate comparison *)

Section Comparison.
Import Machine Text MyWrite SeqRun.
Variable c : collaborators.

Lemma first_hit_existsb (iso : list (measurement c) -> bool) (cuda : candidates c) :
  first_hit c iso cuda = existsb (fun d => iso (items d)) cuda.
Proof.
  induction cuda as [| d cuda IH]; simpl; [reflexivity |].
  destruct (iso (items d)); [reflexivity | exact IH].
Qed.

Lemma uint32_small (z : Z) : 0 <= z < 2 ^ 32 -> uint32 z = z.
Proof. intros H. unfold uint32, wrap. now apply Z.mod_small. Qed.

Lemma uint32_range (z : Z) : 0 <= uint32 z < 2 ^ 32.
Proof. unfold uint32, wrap. apply Z.mod_pos_bound. lia. Qed.

Lemma count_matches_from (cpu cuda : candidates c) (n : Z) :
  0 <= n < 2 ^ 32 ->
  count_matches c cpu cuda n = uint32 (n + size (matched c cuda cpu)).
Proof.
  revert n. induction cpu as [| cand cpu IH]; intros n Hn.
  - cbn. rewrite Z.add_0_r. symmetry. now apply uint32_small.
  - cbn [count_matches]. rewrite first_hit_existsb.
    unfold matched. cbn [filter]. fold (matched c cuda cpu).
    destruct (existsb _ cuda).
    + rewrite IH by apply uint32_range.
      unfold size. cbn [List.length]. unfold uint32, wrap.
      rewrite Zplus_mod_idemp_l. f_equal. lia.
    + now apply IH.
Qed.

Lemma matched_size (cpu cuda : candidates c) :
  0 <= size (matched c cuda cpu) <= size cpu.
Proof.
  unfold size, matched. split; [lia |].
  apply inj_le. apply filter_length_le.
Qed.

Lemma count_matches_bounds (cpu cuda : candidates c) :
  0 <= count_matches c cpu cuda 0 <= size cpu.
Proof.
  rewrite count_matches_from by lia. cbn [Z.add].
  pose proof (matched_size cpu cuda) as Hm.
  pose proof (uint32_range (size (matched c cuda cpu))) as Hr.
  split; [lia |].
  transitivity (size (matched c cuda cpu)); [| lia].
  unfold uint32, wrap. apply Z.mod_le; lia.
Qed.

Lemma size_app {X : Type} (l1 l2 : list X) : size (l1 ++ l2) = size l1 + size l2.
Proof. unfold size. rewrite length_app. lia. Qed.

Lemma nth_error_at_size {X : Type} (pre rest : list X) (x : X) :
  nth_error (pre ++ x :: rest) (Z.to_nat (size pre)) = Some x.
Proof.
  unfold size. rewrite Nat2Z.id, nth_error_app2 by lia.
  now rewrite Nat.sub_diag.
Qed.

Lemma uint32_next {X : Type} (pre rest : list X) (x : X) :
  size (pre ++ x :: rest) < 2 ^ 32 -> uint32 (size pre + 1) = size (pre ++ [x]).
Proof.
  intros H. rewrite size_app in *. unfold size in *. cbn [List.length] in *.
  rewrite uint32_small; lia.
Qed.

(** Below 2^32 accelerator candidates the inner loop ends, with a hit
    exactly when some candidate from the index on is equal. *)
Lemma inner_scan_from (iso : list (measurement c) -> bool)
    (pre rest : candidates c) :
  size (pre ++ rest) < 2 ^ 32 ->
  inner_scan c iso (pre ++ rest)%list (size pre) (first_hit c iso rest).
Proof.
  revert pre. induction rest as [| d rest IH]; intros pre Hsize; cbn [first_hit].
  - apply scan_end. rewrite app_nil_r. lia.
  - assert (Hlt : size pre < size (pre ++ d :: rest)).
    { rewrite size_app. unfold size. cbn [List.length]. lia. }
    destruct (iso (items d)) eqn:Hiso.
    + apply (scan_hit c iso _ _ d); [exact Hlt | apply nth_error_at_size | exact Hiso].
    + apply (scan_next c iso _ _ d);
        [exact Hlt | apply nth_error_at_size | exact Hiso |].
      rewrite (uint32_next pre rest d Hsize).
      replace (pre ++ d :: rest)%list with ((pre ++ [d]) ++ rest)%list
        by (now rewrite <- app_assoc).
      apply IH. now rewrite <- app_assoc.
Qed.

Lemma inner_scan_deterministic (iso : list (measurement c) -> bool)
    (cuda : candidates c) (j : Z) (hit1 hit2 : bool) :
  inner_scan c iso cuda j hit1 -> inner_scan c iso cuda j hit2 -> hit1 = hit2.
Proof.
  intros H1. revert hit2.
  induction H1 as [j Hge | j cand Hlt Hnth Hiso | j cand hit Hlt Hnth Hiso Hrest IH];
    intros hit2 H2; inversion H2; subst; try reflexivity; try contradiction;
    try congruence.
  now apply IH.
Qed.

(** Below 2^32 candidates on both sides the outer loop ends, with the
    counter that [count_matches] computes. *)
Lemma matching_loop_from (pre rest cuda : candidates c) (n : Z) :
  size (pre ++ rest) < 2 ^ 32 -> size cuda < 2 ^ 32 ->
  matching_loop c (pre ++ rest)%list cuda (size pre) n (count_matches c rest cuda n).
Proof.
  intros Hsize Hcuda. revert pre n Hsize.
  induction rest as [| cand rest IH]; intros pre n Hsize; cbn [count_matches].
  - apply matching_end. rewrite app_nil_r. lia.
  - assert (Hlt : size pre < size (pre ++ cand :: rest)).
    { rewrite size_app. unfold size. cbn [List.length]. lia. }
    apply (matching_step c _ _ _ _ cand
             (first_hit c (is_same_object c (items cand)) cuda));
      [exact Hlt | apply nth_error_at_size | |].
    + apply (inner_scan_from (is_same_object c (items cand)) [] cuda Hcuda).
    + rewrite (uint32_next pre rest cand Hsize).
      replace (pre ++ cand :: rest)%list with ((pre ++ [cand]) ++ rest)%list
        by (now rewrite <- app_assoc).
      apply IH. now rewrite <- app_assoc.
Qed.

Lemma matching_loop_deterministic (cpu cuda : candidates c) (i n r1 r2 : Z) :
  matching_loop c cpu cuda i n r1 -> matching_loop c cpu cuda i n r2 -> r1 = r2.
Proof.
  intros H1. revert r2.
  induction H1 as [i n Hge | i n cand hit r Hlt Hnth Hscan Hrest IH];
    intros r2 H2; inversion H2; subst; try reflexivity; try contradiction.
  apply IH.
  match goal with
  | Ha : nth_error cpu _ = Some ?a, Hb : nth_error cpu _ = Some ?b |- _ =>
      assert (a = b) by congruence; subst
  end.
  match goal with
  | Ha : inner_scan _ _ _ 0 ?h1, Hb : inner_scan _ _ _ 0 ?h2 |- _ =>
      assert (h1 = h2) by (eapply inner_scan_deterministic; eassumption); subst
  end.
  assumption.
Qed.

(** With 2^32 CPU candidates or more the index never reaches the size:
    the outer loop does not end. *)
Lemma matching_loop_never_ends (cpu cuda : candidates c) (i n r : Z) :
  2 ^ 32 <= size cpu -> 0 <= i < 2 ^ 32 -> ~ matching_loop c cpu cuda i n r.
Proof.
  intros Hmany Hi Hloop.
  induction Hloop as [i n Hge | i n cand hit r Hlt Hnth Hscan Hrest IH].
  - lia.
  - apply IH. apply uint32_range.
Qed.

Lemma compare_event_disk (perm : permissions) (event : Z)
    (cpu cuda : candidates c) (fs : files) :
  snd (compare_event c perm event cpu cuda fs) =
  if perm (InEvent event) ForAppend candidate_file
  then store candidate_file
         ((match fs candidate_file with Some t => t | None => "" end) ++
          show_float (io c) (matching_rate (count_matches c cpu cuda 0) (size cpu)) ++
          " " ++ show_size (io c) (size cpu) ++ " " ++
          show_size (io c) (size cuda) ++ endl) fs
  else fs.
Proof.
  unfold compare_event, open_app. cbn [is_open].
  destruct (perm (InEvent event) ForAppend candidate_file); [| reflexivity].
  cbn [snd]. unfold close, put. cbn [is_open os_name os_text].
  f_equal. rewrite !append_assoc. reflexivity.
Qed.

End Comparison.

(** ** The seed writer *)

Section WriterFacts.
Import Text MyWrite.
Context {link scalar : Type} (io : text_io link scalar).

Lemma put_mk (name t u : string) :
  put (mk_ofstream name true t) u = mk_ofstream name true (t ++ u).
Proof. reflexivity. Qed.

Lemma put_mk_closed (name t u : string) :
  put (mk_ofstream name false t) u = mk_ofstream name false t.
Proof. reflexivity. Qed.

Lemma put_seed_open (name t : string) (sd : seed link scalar) :
  put_seed io (mk_ofstream name true t) sd =
  mk_ofstream name true (t ++ seed_row io sd ++ endl).
Proof.
  unfold put_seed, seed_row.
  rewrite !put_mk. f_equal.
  rewrite !append_assoc. reflexivity.
Qed.

Lemma put_seed_closed (name t : string) (sd : seed link scalar) :
  put_seed io (mk_ofstream name false t) sd = mk_ofstream name false t.
Proof.
  unfold put_seed. rewrite !put_mk_closed. reflexivity.
Qed.

Lemma fold_left_cons {X Y : Type} (f : X -> Y -> X) (y : Y) (l : list Y) (x : X) :
  fold_left f (y :: l) x = fold_left f l (f x y).
Proof. reflexivity. Qed.

Lemma put_seeds_open (seeds : list (seed link scalar)) (name t : string) :
  fold_left (put_seed io) seeds (mk_ofstream name true t) =
  mk_ofstream name true (t ++ seed_rows io seeds).
Proof.
  revert t. induction seeds as [| sd seeds IH]; intros t.
  - unfold seed_rows. cbn [fold_left fold_right]. now rewrite append_empty_r.
  - rewrite fold_left_cons, put_seed_open, IH. f_equal.
    unfold seed_rows. cbn [fold_right].
    rewrite !append_assoc. reflexivity.
Qed.

Lemma put_seeds_closed (seeds : list (seed link scalar)) (name t : string) :
  fold_left (put_seed io) seeds (mk_ofstream name false t) =
  mk_ofstream name false t.
Proof.
  induction seeds as [| sd seeds IH].
  - reflexivity.
  - rewrite fold_left_cons, put_seed_closed. exact IH.
Qed.

(** What [mywrite] leaves on disk: when the file opens, its former text
    is replaced by the header line and the data rows; when it does not,
    nothing changes. *)
Lemma mywrite_store (can_open : string -> bool) (event : Z)
    (directory device : string) (seeds : list (seed link scalar)) (fs : files) :
  mywrite io can_open event directory seeds device fs =
  if can_open (seeds_filename io event directory device)
  then store (seeds_filename io event directory device)
         (seeds_header ++ endl ++ seed_rows io seeds) fs
  else fs.
Proof.
  unfold mywrite, open_trunc.
  destruct (can_open (seeds_filename io event directory device)) eqn:Hc.
  - rewrite !put_mk, put_seeds_open.
    unfold close. cbn [is_open os_name os_text].
    reflexivity.
  - rewrite !put_mk_closed, put_seeds_closed. reflexivity.
Qed.

End WriterFacts.

Lemma store_same_paths (name t1 t2 : string) (fs1 fs2 : Text.files) :
  SeqRun.same_paths fs1 fs2 ->
  SeqRun.same_paths (Text.store name t1 fs1) (Text.store name t2 fs2).
Proof.
  intros H n. unfold Text.store. destruct (String.eqb n name).
  - split; discriminate.
  - apply H.
Qed.

Lemma store_lookup (name t : string) (fs : Text.files) :
  Text.store name t fs name = Some t.
Proof. unfold Text.store. now rewrite String.eqb_refl. Qed.

(** ** What a run does not depend on *)

Lemma fold_left_related {X Y I : Type} (R : X -> Y -> Prop)
    (f : X -> I -> X) (g : Y -> I -> Y) (l : list I) :
  (forall i x y, R x y -> R (f x i) (g y i)) ->
  forall x y, R x y -> R (fold_left f l x) (fold_left g l y).
Proof.
  intros Hstep. induction l as [| i l IH]; intros x y H; simpl.
  - exact H.
  - apply IH. apply Hstep. exact H.
Qed.

Section Independence.
Import Machine Text MyWrite SeqRun.
Variable c : collaborators.
Variable o : options.


(** Nor do they depend on the candidate equality predicate. *)
Lemma process_event_counters_iso
    (f : list (measurement c) -> list (measurement c) -> bool)
    (perm : permissions) (event : Z) (st1 st2 : run_state) :
  counters st1 = counters st2 ->
  counters (process_event (with_same_object c f) o perm event st1) =
  counters (process_event c o perm event st2).
Proof.
  intros H. unfold process_event. cbn [counters]. rewrite H. reflexivity.
Qed.

Lemma mywrite_same_paths {link scalar : Type} (t : text_io link scalar)
    (can_open : string -> bool) (event : Z) (dir dev : string)
    (s1 s2 : list (seed link scalar)) (fs1 fs2 : files) :
  same_paths fs1 fs2 ->
  same_paths (mywrite t can_open event dir s1 dev fs1)
             (mywrite t can_open event dir s2 dev fs2).
Proof.
  intros H. rewrite !mywrite_store.
  destruct (can_open (seeds_filename t event dir dev)).
  - now apply store_same_paths.
  - exact H.
Qed.

Lemma compare_event_same_paths
    (f : list (measurement c) -> list (measurement c) -> bool)
    (perm : permissions) (event : Z) (cpu cuda : candidates c) (fs1 fs2 : files) :
  same_paths fs1 fs2 ->
  same_paths (snd (compare_event (with_same_object c f) perm event cpu cuda fs1))
             (snd (compare_event c perm event cpu cuda fs2)).
Proof.
  intros H. rewrite !compare_event_disk.
  destruct (perm (InEvent event) ForAppend candidate_file).
  - now apply store_same_paths.
  - exact H.
Qed.

Lemma process_event_same_paths
    (f : list (measurement c) -> list (measurement c) -> bool)
    (perm : permissions) (event : Z) (st1 st2 : run_state) :
  same_paths (disk st1) (disk st2) ->
  same_paths (disk (process_event (with_same_object c f) o perm event st1))
             (disk (process_event c o perm event st2)).
Proof.
  intros H. unfold process_event. cbn [disk].
  apply mywrite_same_paths. apply mywrite_same_paths.
  destruct (compare_with_cpu o).
  - now apply compare_event_same_paths.
  - exact H.
Qed.

(** The value returned is decided by the three opens after the loop and
    by whether [tempo_time.txt] is on disk. *)
Lemma finish_exit_code (perm : permissions) (st : run_state) :
  snd (finish c o perm st) =
  if perm AfterLoop ForRead tempo_file &&
     (perm AfterLoop ForAppend tempo_file ||
      match disk st tempo_file with Some _ => true | None => false end) &&
     perm AfterLoop ForWrite time_file
  then 0 else 1.
Proof.
  unfold finish, open_app, open_trunc. cbn [is_open].
  destruct (perm AfterLoop ForAppend tempo_file); cbn [fst snd orb].
  - unfold close, put. cbn [is_open os_name os_text]. rewrite store_lookup.
    destruct (perm AfterLoop ForRead tempo_file),
             (perm AfterLoop ForWrite time_file); reflexivity.
  - destruct (perm AfterLoop ForRead tempo_file); [| reflexivity].
    destruct (disk st tempo_file); [| reflexivity].
    destruct (perm AfterLoop ForWrite time_file); reflexivity.
Qed.

Lemma finish_counters (perm : permissions) (st : run_state) :
  counters (fst (finish c o perm st)) = counters st.
Proof.
  unfold finish, open_app, open_trunc. cbn [is_open].
  repeat match goal with
  | |- context [if ?b then _ else _] => destruct b
  | |- context [match ?x with Some _ => _ | None => _ end] => destruct x
  end; reflexivity.
Qed.


End Independence.

Section IsoIndependence.
Import Machine Text MyWrite SeqRun.

Lemma seq_run_iso (c : SeqRun.collaborators) (o : SeqRun.options)
    (f : list (SeqRun.measurement c) -> list (SeqRun.measurement c) -> bool)
    (perm : SeqRun.permissions) (fs : Text.files) :
  counters (fst (seq_run (with_same_object c f) o perm fs)) =
    counters (fst (seq_run c o perm fs)) /\
  snd (seq_run (with_same_object c f) o perm fs) = snd (seq_run c o perm fs).
Proof.
  unfold seq_run. rewrite !finish_counters, !finish_exit_code, !event_loop_fold.
  assert (H : counters
                (fold_left (fun s e => process_event (with_same_object c f) o perm e s)
                   (visited_events o) (initial_state o fs)) =
              counters
                (fold_left (fun s e => process_event c o perm e s)
                   (visited_events o) (initial_state o fs)) /\
              same_paths
                (disk (fold_left
                         (fun s e => process_event (with_same_object c f) o perm e s)
                         (visited_events o) (initial_state o fs)))
                (disk (fold_left (fun s e => process_event c o perm e s)
                         (visited_events o) (initial_state o fs)))).
  { apply (fold_left_related
             (fun s1 s2 => counters s1 = counters s2 /\ same_paths (disk s1) (disk s2))).
    - intros event s1 s2 [Hc Hd]. split.
      + now apply process_event_counters_iso.
      + now apply process_event_same_paths.
    - split; [reflexivity |]. intros name. reflexivity. }
  destruct H as [Hc Hd]. split; [exact Hc |].
  specialize (Hd tempo_file).
  destruct (disk _ tempo_file), (disk _ tempo_file); try reflexivity.
  - destruct Hd as [_ Hd]. discriminate (Hd eq_refl).
  - destruct Hd as [Hd _]. discriminate (Hd eq_refl).
Qed.

End IsoIndependence.



Section ComparisonInRun.
Import Machine Text MyWrite SeqRun.
Variable c : collaborators.
Variable o : options.
Variable perm : permissions.
Hypothesis enabled : compare_with_cpu o = true.

(** With the cross-check enabled the comparison block of an event runs on
    the candidates of the two finding stages. *)
Lemma event_actions_compared (event : Z) (fs : files) (a : action) :
  In a (fst (compare_event c perm event (event_cpu_candidates c o event)
               (event_cuda_candidates c o event) fs)) ->
  In a (event_actions c o perm event fs).
Proof.
  unfold event_actions, process_event, event_cpu_candidates,
    event_cuda_candidates, event_navigation_buffer.
  rewrite enabled. cbn [trace disk fst snd].
  intros H. rewrite !in_app_iff. tauto.
Qed.

Lemma process_event_disk (event : Z) (st : run_state) :
  disk (process_event c o perm event st) =
  mywrite (io c) (perm (InEvent event) ForWrite) event
    (output_directory o ++ "cuda/")
    (sa_cuda c (fst (read_spacepoints c event (directory o)))) ""
    (mywrite (io c) (perm (InEvent event) ForWrite) event
       (output_directory o ++ "cpu/")
       (sa c (fst (read_spacepoints c event (directory o)))) ""
       (snd (compare_event c perm event (event_cpu_candidates c o event)
               (event_cuda_candidates c o event) (disk st)))).
Proof.
  unfold process_event, event_cpu_candidates, event_cuda_candidates,
    event_navigation_buffer.
  rewrite enabled. reflexivity.
Qed.

End ComparisonInRun.

(** C5 as the code has it.  For candidate containers of fewer than 2^32
    elements on both sides, the matching loops of one event end; for each
    CPU candidate they look for the first accelerator candidate with the
    same measurement sequence and count the CPU candidate once if there
    is one, so the count is the number of CPU candidates that have a match
    and never exceeds the number of CPU candidates.  The rate reported is
    the single-precision quotient of the count by the number of CPU
    candidates.  The outcome of the matching changes neither the counters
    of the run nor the value it returns. *)
Theorem candidate_matching_counts_first_hits
    (c : SeqRun.collaborators) (perm : SeqRun.permissions) (event : Z)
    (cpu cuda : SeqRun.candidates c) (fs : Text.files) :
  SeqRun.size cpu < 2 ^ 32 ->
  SeqRun.size cuda < 2 ^ 32 ->
  let n_matches := SeqRun.count_matches c cpu cuda 0 in
  SeqRun.matching_loop c cpu cuda 0 0 n_matches /\
  (forall result, SeqRun.matching_loop c cpu cuda 0 0 result -> result = n_matches) /\
  n_matches = SeqRun.size (SeqRun.matched c cuda cpu) /\
  0 <= n_matches <= SeqRun.size cpu /\
  In (SeqRun.PrintRate
        (Machine.fdiv (Machine.float_of_Z n_matches)
           (Machine.float_of_Z (SeqRun.size cpu))))
     (fst (SeqRun.compare_event c perm event cpu cuda fs)) /\
  (forall (o : SeqRun.options) (fs0 : Text.files)
          (f : list (SeqRun.measurement c) -> list (SeqRun.measurement c) -> bool),
     SeqRun.counters (fst (SeqRun.seq_run (SeqRun.with_same_object c f) o perm fs0)) =
       SeqRun.counters (fst (SeqRun.seq_run c o perm fs0)) /\
     snd (SeqRun.seq_run (SeqRun.with_same_object c f) o perm fs0) =
       snd (SeqRun.seq_run c o perm fs0)).
Proof.
  intros Hcpu Hcuda n_matches. subst n_matches.
  pose proof (count_matches_from c cpu cuda 0 ltac:(lia)) as Hn.
  cbn [Z.add] in Hn.
  pose proof (matched_size c cpu cuda) as Hm.
  pose proof (matching_loop_from c [] cpu cuda 0 Hcpu Hcuda) as Hloop.
  split; [exact Hloop |].
  split; [intros result Hr; exact (matching_loop_deterministic c _ _ _ _ _ _ Hr Hloop) |].
  split; [rewrite Hn; apply uint32_small; lia |].
  split; [apply count_matches_bounds |].
  split.
  - rewrite compare_event_actions.
    destruct (perm (SeqRun.InEvent event) SeqRun.ForAppend SeqRun.candidate_file);
      rewrite ?in_app_iff; cbn [In]; unfold SeqRun.matching_rate; tauto.
  - intros o fs0 f. apply seq_run_iso.
Qed.

(** The two candidates of the sample accelerator path against the one of
    the CPU path: the loops end with one match. *)
Lemma candidate_matching_counts_first_hits_witness :
  SeqRun.matching_loop Demo.chain (Demo.finding false [1; 2] [0])
    (Demo.finding true [1; 2] [0]) 0 0 1 /\
  1 = SeqRun.size
        (SeqRun.matched Demo.chain (Demo.finding true [1; 2] [0])
           (Demo.finding false [1; 2] [0])) /\
  In (SeqRun.PrintRate (Machine.fdiv (Machine.float_of_Z 1) (Machine.float_of_Z 1)))
     (fst (SeqRun.compare_event Demo.chain Demo.allow_all 0
             (Demo.finding false [1; 2] [0]) (Demo.finding true [1; 2] [0])
             Text.no_files)).
Proof.
  destruct (candidate_matching_counts_first_hits Demo.chain Demo.allow_all 0
              (Demo.finding false [1; 2] [0]) (Demo.finding true [1; 2] [0])
              Text.no_files ltac:(vm_compute; reflexivity)
              ltac:(vm_compute; reflexivity)) as (Hloop & _ & Hcount & _ & Hrate & _).
  exact (conj Hloop (conj Hcount Hrate)).
Defined.

(** C5, counterexample.  With 2^32 CPU candidates the [unsigned int]
    index wraps around to 0 before it reaches the size: the matching loop
    ends with no count, and no rate is reported. *)
Lemma matching_of_a_crowd_never_ends_counterexample :
  ~ exists result : Z, SeqRun.matching_loop Demo.chain Samples.crowd [] 0 0 result.
Proof.
  intros [result Hloop]. revert Hloop.
  apply matching_loop_never_ends; [| lia].
  unfold Samples.crowd, SeqRun.size. rewrite repeat_length, Z2Nat.id; lia.
Qed.

(** C9. When the cross-check is enabled and the CPU finding stage returns
    no candidate for an event, the rate is the quotient of zero by zero,
    a NaN; it is printed, and when [track_candidate.txt] opens it is
    appended to that file together with the two sizes. *)
Theorem empty_cpu_candidates_give_nan_rate
    (c : SeqRun.collaborators) (o : SeqRun.options) (perm : SeqRun.permissions)
    (event : Z) (st : SeqRun.run_state) :
  SeqRun.compare_with_cpu o = true ->
  SeqRun.event_cpu_candidates c o event = [] ->
  let cuda := SeqRun.event_cuda_candidates c o event in
  let after_compare :=
    snd (SeqRun.compare_event c perm event [] cuda (SeqRun.disk st)) in
  SeqRun.matching_rate (SeqRun.count_matches c [] cuda 0) 0 = S754_nan /\
  In (SeqRun.PrintRate S754_nan) (SeqRun.trace (SeqRun.process_event c o perm event st)) /\
  (perm (SeqRun.InEvent event) SeqRun.ForAppend SeqRun.candidate_file = true ->
   after_compare SeqRun.candidate_file =
   Some ((match SeqRun.disk st SeqRun.candidate_file with
          | Some t => t
          | None => ""
          end) ++
         MyWrite.show_float (SeqRun.io c) S754_nan ++ " " ++
         MyWrite.show_size (SeqRun.io c) 0 ++ " " ++
         MyWrite.show_size (SeqRun.io c) (SeqRun.size cuda) ++ Text.endl)) /\
  SeqRun.disk (SeqRun.process_event c o perm event st) =
    MyWrite.mywrite (SeqRun.io c) (perm (SeqRun.InEvent event) SeqRun.ForWrite) event
      (SeqRun.output_directory o ++ "cuda/")
      (SeqRun.sa_cuda c (fst (SeqRun.read_spacepoints c event (SeqRun.directory o)))) ""
      (MyWrite.mywrite (SeqRun.io c) (perm (SeqRun.InEvent event) SeqRun.ForWrite) event
         (SeqRun.output_directory o ++ "cpu/")
         (SeqRun.sa c (fst (SeqRun.read_spacepoints c event (SeqRun.directory o)))) ""
         after_compare).
Proof.
  intros Hon Hempty cuda after_compare.
  split; [reflexivity |]. split; [| split].
  - rewrite process_event_trace. apply in_or_app. right.
    apply (event_actions_compared c o perm Hon).
    rewrite Hempty, compare_event_actions.
    change (SeqRun.matching_rate _ _) with S754_nan.
    destruct (perm (SeqRun.InEvent event) SeqRun.ForAppend SeqRun.candidate_file);
      rewrite ?in_app_iff; cbn [In]; tauto.
  - intros Hopen. subst after_compare.
    rewrite compare_event_disk, Hopen, store_lookup. reflexivity.
  - subst after_compare cuda. rewrite <- Hempty.
    apply (process_event_disk c o perm Hon).
Qed.

(** Event 1 of the sample run has no spacepoints, hence no CPU candidate:
    the rate printed is a NaN. *)
Lemma empty_cpu_candidates_give_nan_rate_witness :
  In (SeqRun.PrintRate S754_nan)
     (SeqRun.trace
        (SeqRun.process_event Demo.chain (Demo.opts true) Demo.allow_all 1
           (SeqRun.initial_state (Demo.opts true) Text.no_files))).
Proof.
  exact (proj1 (proj2 (empty_cpu_candidates_give_nan_rate Demo.chain (Demo.opts true)
                         Demo.allow_all 1
                         (SeqRun.initial_state (Demo.opts true) Text.no_files)
                         ltac:(reflexivity) ltac:(reflexivity)))).
Defined.

(** ** The accelerator side of one event *)

Section EventShape.
Import Machine Text MyWrite SeqRun.
Variable c : collaborators.
Variable o : options.
Variable perm : permissions.

Lemma filter_perf_writes (p : action -> bool) (g : stage) (event : Z)
    {X : Type} (l : list X) :
  p (PerfWrite g event) = false ->
  filter p (map (fun _ => PerfWrite g event) l) = [].
Proof.
  intros H. induction l as [| x l IH]; cbn [map filter]; [reflexivity |].
  now rewrite H.
Qed.

(** A predicate that holds of no action of the comparison block. *)
Lemma filter_compare_event (p : action -> bool) (event : Z)
    (cpu cuda : candidates c) (fs : files) :
  (forall a, cpu_side a = true -> p a = false) ->
  p (Cerr "Unable to open file: ") = false ->
  filter p (fst (compare_event c perm event cpu cuda fs)) = [].
Proof.
  intros Hcpu Herr. rewrite compare_event_actions.
  destruct (perm (InEvent event) ForAppend candidate_file);
    rewrite ?filter_app; cbn [filter];
    rewrite ?Hcpu, ?Herr by reflexivity; reflexivity.
Qed.

(** The launches, synchronizations and downloads of one event, in the
    order in which the host issues them. *)
Lemma event_accelerator_actions (event : Z) (fs : files) :
  filter accelerator_side (event_actions c o perm event fs) =
  [Launch Seeding the_stream None; Synchronize the_stream;
   Launch ParamEstimation the_stream None; Synchronize the_stream;
   Launch Finding the_stream (Some (event_navigation_buffer c o event));
   Launch Fitting the_stream (Some (event_navigation_buffer c o event));
   CopyToHostWait Seeds the_stream; CopyToHostWait Params the_stream;
   CopyToHost Candidates; CopyToHost States].
Proof.
  unfold event_actions, process_event, event_navigation_buffer.
  cbn [trace disk]. rewrite app_nil_l, !filter_app.
  destruct (compare_with_cpu o), (performance_run o); cbn [fst snd filter];
    rewrite ?filter_perf_writes by reflexivity;
    rewrite ?filter_compare_event by (first [reflexivity | now intros [] ]);
    reflexivity.
Qed.

End EventShape.

Lemma filter_filter_implied {X : Type} (p q : X -> bool) (l : list X) :
  (forall x, p x = true -> q x = true) ->
  filter p (filter q l) = filter p l.
Proof.
  intros H. induction l as [| x l IH]; cbn [filter]; [reflexivity |].
  destruct (q x) eqn:Hq; cbn [filter].
  - now rewrite IH.
  - destruct (p x) eqn:Hp; [| exact IH].
    apply H in Hp. congruence.
Qed.

Section EventOrder.
Import Machine Text MyWrite SeqRun.
Variable c : collaborators.
Variable o : options.
Variable perm : permissions.

(** The actions of an event in three parts around the creation of the
    navigation buffer: before it, seeding and parameter estimation are
    launched and each is followed by a synchronization, and nothing reads
    an accelerator result; after it, finding and fitting are launched and
    the four results are copied back, and again nothing reads a result;
    what remains gives no work to the accelerator. *)
Lemma event_results_order (event : Z) (fs : files) :
  exists seeded sized use : list action,
    event_actions c o perm event fs =
      (seeded ++ [AllocNavigation (event_navigation_buffer c o event)] ++
       sized ++ use)%list /\
    filter accelerator_side seeded =
      [Launch Seeding the_stream None; Synchronize the_stream;
       Launch ParamEstimation the_stream None; Synchronize the_stream] /\
    filter consumes_results seeded = [] /\
    filter accelerator_side sized =
      [Launch Finding the_stream (Some (event_navigation_buffer c o event));
       Launch Fitting the_stream (Some (event_navigation_buffer c o event));
       CopyToHostWait Seeds the_stream; CopyToHostWait Params the_stream;
       CopyToHost Candidates; CopyToHost States] /\
    filter consumes_results sized = [] /\
    filter accelerator_side use = [].
Proof.
  unfold event_actions, process_event, event_navigation_buffer.
  cbn [trace disk]. rewrite app_nil_l.
  destruct (compare_with_cpu o) eqn:Hcmp; cbn [app fst snd].
  - match goal with
    | |- exists seeded sized use, ?l = _ /\ _ =>
        exists (firstn 11 l), (firstn 8 (skipn 12 l)), (skipn 20 l)
    end.
    split; [reflexivity |]. split; [reflexivity |]. split; [reflexivity |].
    split; [reflexivity |]. split; [reflexivity |].
    cbn [skipn]. rewrite !filter_app.
    rewrite filter_compare_event by (first [reflexivity | now intros [] ]).
    destruct (performance_run o); cbn [filter app];
      rewrite ?filter_perf_writes by reflexivity; reflexivity.
  - match goal with
    | |- exists seeded sized use, ?l = _ /\ _ =>
        exists (firstn 9 l), (firstn 6 (skipn 10 l)), (skipn 16 l)
    end.
    split; [reflexivity |]. split; [reflexivity |]. split; [reflexivity |].
    split; [reflexivity |]. split; [reflexivity |].
    cbn [skipn].
    destruct (performance_run o); cbn [filter app];
      rewrite ?filter_perf_writes by reflexivity; reflexivity.
Qed.

(** The creation of the navigation buffer and the two stage calls that
    take it, in the order of the event. *)
Lemma event_navigation_uses (event : Z) (fs : files) :
  filter uses_navigation (event_actions c o perm event fs) =
  [AllocNavigation (event_navigation_buffer c o event);
   Launch Finding the_stream (Some (event_navigation_buffer c o event));
   Launch Fitting the_stream (Some (event_navigation_buffer c o event))].
Proof.
  unfold event_actions, process_event, event_navigation_buffer.
  cbn [trace disk]. rewrite app_nil_l, !filter_app.
  destruct (compare_with_cpu o), (performance_run o); cbn [fst snd filter];
    rewrite ?filter_perf_writes by reflexivity;
    rewrite ?filter_compare_event by (first [reflexivity | now intros [] ]);
    reflexivity.
Qed.

End EventOrder.

(** C3 as the code has it.  In every event the four accelerator stages are
    launched on the one stream of the run in the order seeding, parameter
    estimation, finding, fitting.  The stream is synchronized twice, right
    after seeding and right after parameter estimation; finding and
    fitting are not followed by a synchronization.  The first host read
    of an accelerator result is the read of the seed count that sizes the
    navigation buffer: it comes after the two synchronizations and before
    finding is launched.  Every other use of the results (the comparison,
    the printing, the seed dumps, the performance writers) comes after
    the seed and parameter downloads are awaited and the candidate and
    state containers are copied back. *)
Theorem accelerator_stages_on_one_stream_synchronized_twice
    (c : SeqRun.collaborators) (o : SeqRun.options) (perm : SeqRun.permissions)
    (event : Z) (fs : Text.files) :
  let actions := SeqRun.event_actions c o perm event fs in
  let nav := SeqRun.event_navigation_buffer c o event in
  filter SeqRun.accelerator_side actions =
    [SeqRun.Launch SeqRun.Seeding SeqRun.the_stream None;
     SeqRun.Synchronize SeqRun.the_stream;
     SeqRun.Launch SeqRun.ParamEstimation SeqRun.the_stream None;
     SeqRun.Synchronize SeqRun.the_stream;
     SeqRun.Launch SeqRun.Finding SeqRun.the_stream (Some nav);
     SeqRun.Launch SeqRun.Fitting SeqRun.the_stream (Some nav);
     SeqRun.CopyToHostWait SeqRun.Seeds SeqRun.the_stream;
     SeqRun.CopyToHostWait SeqRun.Params SeqRun.the_stream;
     SeqRun.CopyToHost SeqRun.Candidates; SeqRun.CopyToHost SeqRun.States] /\
  SeqRun.synchronizations actions = 2%nat /\
  exists seeded sized use : list SeqRun.action,
    actions = (seeded ++ [SeqRun.AllocNavigation nav] ++ sized ++ use)%list /\
    filter SeqRun.accelerator_side seeded =
      [SeqRun.Launch SeqRun.Seeding SeqRun.the_stream None;
       SeqRun.Synchronize SeqRun.the_stream;
       SeqRun.Launch SeqRun.ParamEstimation SeqRun.the_stream None;
       SeqRun.Synchronize SeqRun.the_stream] /\
    filter SeqRun.consumes_results seeded = [] /\
    filter SeqRun.accelerator_side sized =
      [SeqRun.Launch SeqRun.Finding SeqRun.the_stream (Some nav);
       SeqRun.Launch SeqRun.Fitting SeqRun.the_stream (Some nav);
       SeqRun.CopyToHostWait SeqRun.Seeds SeqRun.the_stream;
       SeqRun.CopyToHostWait SeqRun.Params SeqRun.the_stream;
       SeqRun.CopyToHost SeqRun.Candidates; SeqRun.CopyToHost SeqRun.States] /\
    filter SeqRun.consumes_results sized = [] /\
    filter SeqRun.accelerator_side use = [].
Proof.
  intros actions nav. subst actions nav.
  split; [apply event_accelerator_actions |].
  split; [| apply event_results_order].
  unfold SeqRun.synchronizations.
  rewrite <- (filter_filter_implied SeqRun.is_synchronize SeqRun.accelerator_side)
    by (now intros []).
  rewrite event_accelerator_actions. reflexivity.
Qed.

(** C3, counterexample.  In event 0 of the sample run the stream is
    synchronized twice, not once. *)
Lemma stream_synchronized_once_counterexample :
  SeqRun.synchronizations
    (SeqRun.event_actions Demo.chain (Demo.opts true) Demo.allow_all 0 Text.no_files)
  <> 1%nat.
Proof. vm_compute. discriminate. Qed.

(** C7 as the code has it.  In every event one navigation buffer is
    created; its size is the configured size scaler times the number of
    seeds that the accelerator seeding returned, reduced modulo 2^w for
    the w-bit unsigned type of the computation, hence that product
    whenever the product fits the type.  The buffer created is the one
    handed to the accelerator finding stage and then to the accelerator
    fitting stage, and no other buffer is created or handed to a stage in
    the event. *)
Theorem navigation_buffer_sized_by_seed_count
    (c : SeqRun.collaborators) (o : SeqRun.options) (perm : SeqRun.permissions)
    (event : Z) (st : SeqRun.run_state) :
  let seeds_cuda :=
    SeqRun.sa_cuda c (fst (SeqRun.read_spacepoints c event (SeqRun.directory o))) in
  let product := SeqRun.navigation_buffer_size_scaler o * SeqRun.size seeds_cuda in
  let nav := SeqRun.mk_nav event (Machine.wrap (SeqRun.size_type_bits c) product) in
  let actions := SeqRun.event_actions c o perm event (SeqRun.disk st) in
  let found := SeqRun.event_cuda_candidates c o event in
  filter SeqRun.uses_navigation actions =
    [SeqRun.AllocNavigation nav;
     SeqRun.Launch SeqRun.Finding SeqRun.the_stream (Some nav);
     SeqRun.Launch SeqRun.Fitting SeqRun.the_stream (Some nav)] /\
  (0 <= SeqRun.navigation_buffer_size_scaler o ->
   product < 2 ^ SeqRun.size_type_bits c ->
   SeqRun.nav_size nav = product) /\
  (forall b, In (SeqRun.AllocNavigation b) actions -> b = nav) /\
  (forall g s b, In (SeqRun.Launch g s (Some b)) actions -> b = nav) /\
  found =
    SeqRun.device_finding c nav
      (SeqRun.read_measurements c event (SeqRun.directory o))
      (SeqRun.tp_cuda c (fst (SeqRun.read_spacepoints c event (SeqRun.directory o)))
         seeds_cuda (SeqRun.bFieldInZ o)) /\
  SeqRun.n_found_tracks_cuda (SeqRun.counters (SeqRun.process_event c o perm event st)) =
    Machine.uint64
      (SeqRun.n_found_tracks_cuda (SeqRun.counters st) + SeqRun.size found) /\
  SeqRun.n_fitted_tracks_cuda (SeqRun.counters (SeqRun.process_event c o perm event st)) =
    Machine.uint64
      (SeqRun.n_fitted_tracks_cuda (SeqRun.counters st) +
       SeqRun.size (SeqRun.device_fitting c nav found)).
Proof.
  intros seeds_cuda product nav actions found.
  assert (Hnav : SeqRun.event_navigation_buffer c o event = nav) by reflexivity.
  pose proof (event_navigation_uses c o perm event (SeqRun.disk st)) as Huses.
  fold actions in Huses. rewrite Hnav in Huses.
  assert (Hin : forall a, SeqRun.uses_navigation a = true ->
                          In a actions ->
                          a = SeqRun.AllocNavigation nav \/
                          a = SeqRun.Launch SeqRun.Finding SeqRun.the_stream (Some nav) \/
                          a = SeqRun.Launch SeqRun.Fitting SeqRun.the_stream (Some nav)).
  { intros a Ha Hina.
    assert (Hf : In a (filter SeqRun.uses_navigation actions))
      by (apply filter_In; split; assumption).
    rewrite Huses in Hf. cbn [In] in Hf.
    destruct Hf as [H | [H | [H | []]]]; symmetry in H; tauto. }
  split; [exact Huses |].
  split.
  { intros Hscaler Hfits. cbn [SeqRun.nav_size nav]. unfold Machine.wrap.
    apply Z.mod_small. split; [| exact Hfits].
    apply Z.mul_nonneg_nonneg; [exact Hscaler |]. unfold SeqRun.size. lia. }
  split.
  { intros b Hb.
    destruct (Hin (SeqRun.AllocNavigation b) eq_refl Hb) as [H | [H | H]];
      [now inversion H | discriminate H | discriminate H]. }
  split.
  { intros g s b Hb.
    destruct (Hin (SeqRun.Launch g s (Some b)) eq_refl Hb) as [H | [H | H]];
      [discriminate H | now inversion H | now inversion H]. }
  split; [reflexivity |].
  split; reflexivity.
Qed.

(** Event 0 of the sample run: one seed, scaler 20, a buffer of size 20. *)
Lemma navigation_buffer_sized_by_seed_count_witness :
  filter SeqRun.uses_navigation
    (SeqRun.event_actions Demo.chain (Demo.opts true) Demo.allow_all 0 Text.no_files) =
  [SeqRun.AllocNavigation (SeqRun.mk_nav 0 20);
   SeqRun.Launch SeqRun.Finding SeqRun.the_stream (Some (SeqRun.mk_nav 0 20));
   SeqRun.Launch SeqRun.Fitting SeqRun.the_stream (Some (SeqRun.mk_nav 0 20))] /\
  SeqRun.nav_size (SeqRun.event_navigation_buffer Demo.chain (Demo.opts true) 0) =
  SeqRun.navigation_buffer_size_scaler (Demo.opts true) *
  SeqRun.size
    (SeqRun.sa_cuda Demo.chain
       (fst (SeqRun.read_spacepoints Demo.chain 0 (SeqRun.directory (Demo.opts true))))).
Proof.
  destruct (navigation_buffer_sized_by_seed_count Demo.chain (Demo.opts true)
              Demo.allow_all 0 (SeqRun.initial_state (Demo.opts true) Text.no_files))
    as (Huses & Hsize & _).
  exact (conj Huses
           (Hsize ltac:(vm_compute; discriminate) ltac:(vm_compute; reflexivity))).
Defined.

(** C7, counterexample.  With a size scaler of 2^31 and two accelerator
    seeds the product, 2^32, does not fit the 32-bit size type: the one
    navigation buffer of event 0 is created with size 0. *)
Lemma navigation_buffer_size_wraps_counterexample :
  SeqRun.navigation_buffer_size_scaler Samples.large_scaler_opts *
    SeqRun.size
      (SeqRun.sa_cuda Samples.two_seed_chain
         (fst (SeqRun.read_spacepoints Samples.two_seed_chain 0
                 (SeqRun.directory Samples.large_scaler_opts)))) = 2 ^ 32 /\
  filter SeqRun.uses_navigation
    (SeqRun.event_actions Samples.two_seed_chain Samples.large_scaler_opts
       Demo.allow_all 0 Text.no_files) =
  [SeqRun.AllocNavigation (SeqRun.mk_nav 0 0);
   SeqRun.Launch SeqRun.Finding SeqRun.the_stream (Some (SeqRun.mk_nav 0 0));
   SeqRun.Launch SeqRun.Fitting SeqRun.the_stream (Some (SeqRun.mk_nav 0 0))].
Proof. split; vm_compute; reflexivity. Qed.

(** ** Files that cannot be opened *)

Section OpenFailures.
Import Machine Text MyWrite SeqRun.
Variable c : collaborators.
Variable o : options.
Variable perm : permissions.




End OpenFailures.



(** ** The rows of the seed file *)

Lemma last_char_cons (a : ascii) (r : string) :
  r <> EmptyString -> Text.last_char (String a r) = Text.last_char r.
Proof. intros H. destruct r; [contradiction | reflexivity]. Qed.

Lemma last_char_append (x y : string) :
  y <> EmptyString -> Text.last_char (x ++ y) = Text.last_char y.
Proof.
  intros H. induction x as [| a x IH]; [reflexivity |].
  cbn [append]. rewrite last_char_cons; [exact IH |].
  destruct x; [exact H | discriminate].
Qed.

Lemma append_nonempty (x y : string) : y <> EmptyString -> (x ++ y)%string <> EmptyString.
Proof. intros H. destruct x; [exact H | discriminate]. Qed.

Lemma count_char_append (ch : ascii) (x y : string) :
  Text.count_char ch (x ++ y) = (Text.count_char ch x + Text.count_char ch y)%nat.
Proof.
  induction x as [| a x IH]; cbn [append Text.count_char]; [reflexivity |].
  destruct (Ascii.eqb a ch); rewrite IH; reflexivity.
Qed.

(** C6, at the failing input.  For the collection that holds the single
    seed with links 1, 2, 3, weight 5 and vertex z 0, [mywrite] replaces
    the text of the one file of that event by the header line and one
    data row; the row ends with a comma, so that it splits into six
    fields, the last one empty, under a header that names five.  The
    trailing comma is written for every seed and every formatting of the
    field values. *)
Theorem seed_row_has_trailing_comma :
  let name := "data/out/cuda/event0-seeds.txt" in
  let row := MyWrite.seed_row Demo.io Demo.one_seed in
  (forall old : Text.files,
     MyWrite.mywrite Demo.io (fun _ => true) 0 "out/cuda/" [Demo.one_seed] "" old name =
     Some ("spB_link,spM_link,spT_link,weight,z_vertex" ++ Text.endl ++
           "1,2,3,5,0," ++ Text.endl)) /\
  Text.fields Text.comma row = ["1"; "2"; "3"; "5"; "0"; ""] /\
  Text.fields Text.comma MyWrite.seeds_header =
    ["spB_link"; "spM_link"; "spT_link"; "weight"; "z_vertex"] /\
  (forall (link scalar : Type) (io : MyWrite.text_io link scalar)
          (sd : MyWrite.seed link scalar),
     Text.last_char (MyWrite.seed_row io sd) = Some Text.comma /\
     (Text.count_char Text.comma MyWrite.seeds_header <
      Text.count_char Text.comma (MyWrite.seed_row io sd))%nat).
Proof.
  intros name row. split; [| split; [| split]].
  - intros old. rewrite mywrite_store. cbn beta iota. unfold name.
    change (MyWrite.seeds_filename Demo.io 0 "out/cuda/" "")
      with "data/out/cuda/event0-seeds.txt".
    rewrite store_lookup. reflexivity.
  - reflexivity.
  - reflexivity.
  - intros link scalar io sd. unfold MyWrite.seed_row. split.
    + repeat (rewrite last_char_append;
              [| first [discriminate | apply append_nonempty]]).
      all: try discriminate.
      reflexivity.
    + rewrite !count_char_append.
      change (Text.count_char Text.comma ",") with 1%nat.
      change (Text.count_char Text.comma MyWrite.seeds_header) with 4%nat.
      lia.
Qed.

(** ** The truth-fitting example *)

(** C10. The [main] function of the truth-fitting example returns 1 for
    all options and collaborators, whatever the events contain and
    however many of them are processed. *)
Theorem truth_fitting_main_returns_one
    (c : TruthFit.collaborators) (o : TruthFit.options) :
  snd (TruthFit.main c o) = 1.
Proof. reflexivity. Qed.

(** ** Pile-up generators *)

Section PileUpFacts.
Import Machine PileUp.
Variable R : random_source.
Variable c : collaborators R.

Lemma add_vertex_generators (ntrk i : Z) (st : pu_state R) :
  exists g,
    m_pu_track_generators R (add_vertex R c ntrk i st) =
      (m_pu_track_generators R st ++ [g])%list /\
    without_origin R g = fixed_part c ntrk i.
Proof.
  unfold add_vertex.
  destruct (draw R (distz R st) (pu_engine R st)) as [[zpos dz] e1].
  destruct (draw R (distx R st) e1) as [[xpos dx] e2].
  destruct (draw R (disty R st) e2) as [[ypos dy] e3].
  eexists. split; reflexivity.
Qed.

Lemma fold_add_vertex (ntrk : Z) (l : list Z) (st : pu_state R) :
  map (without_origin R)
    (m_pu_track_generators R
       (fold_left (fun s i => add_vertex R c ntrk i s) l st)) =
  (map (without_origin R) (m_pu_track_generators R st) ++
   map (fixed_part c ntrk) l)%list.
Proof.
  revert st. induction l as [| i l IH]; intros st; cbn [fold_left map].
  - now rewrite app_nil_r.
  - rewrite IH.
    destruct (add_vertex_generators ntrk i st) as [g [Hg Hfix]].
    rewrite Hg, map_app. cbn [map]. rewrite Hfix, <- app_assoc. reflexivity.
Qed.

Lemma fold_add_vertex_prefix (ntrk : Z) (l : list Z) (st : pu_state R) :
  exists rest,
    m_pu_track_generators R
      (fold_left (fun s i => add_vertex R c ntrk i s) l st) =
    (m_pu_track_generators R st ++ rest)%list.
Proof.
  revert st. induction l as [| i l IH]; intros st; cbn [fold_left].
  - exists []. now rewrite app_nil_r.
  - destruct (IH (add_vertex R c ntrk i st)) as [rest Hrest].
    destruct (add_vertex_generators ntrk i st) as [g [Hg _]].
    exists (g :: rest). rewrite Hrest, Hg, <- app_assoc. reflexivity.
Qed.

Lemma int32_visited (nvtx : Z) :
  Loop.visited 31 (int32 nvtx) (int32_lt nvtx) 0 =
  Loop.indices 0 (Z.to_nat (int32 nvtx)).
Proof.
  destruct (Z_lt_dec (int32 nvtx) 0) as [Hneg | Hpos].
  - rewrite visited_empty by lia.
    replace (Z.to_nat (int32 nvtx)) with 0%nat by lia. reflexivity.
  - apply visited_indices; lia.
Qed.

(** Everything but the vertex positions is fixed by the arguments. *)
Lemma setup_pu_fixed_part (entropy nvtx ntrk : Z) :
  map (without_origin R) (setup_pu R c entropy nvtx ntrk) =
  map (fixed_part c ntrk) (Loop.indices 0 (Z.to_nat (int32 nvtx))).
Proof.
  unfold setup_pu. rewrite for_range_fold, fold_add_vertex, int32_visited.
  reflexivity.
Qed.

Lemma simulate_tracks_count (tracks : list (track c))
    (ws : writer_state R c) (sc : scatterer c) :
  List.length (particles R c (fst (simulate_tracks R c tracks (ws, sc)))) =
  (List.length (particles R c ws) + List.length tracks)%nat.
Proof.
  revert ws sc. induction tracks as [| trk rest IH]; intros ws sc;
    cbn [simulate_tracks].
  - cbn. lia.
  - destruct (propagate c sc trk) as [hits sc'].
    rewrite IH. cbn [particles]. rewrite length_app. cbn. lia.
Qed.

Lemma simulate_generators_after (gens : list (generator c))
    (st : writer_state R c * scatterer c) :
  snd (simulate_generators R c gens st) = map (fun gen => snd (generate c gen)) gens.
Proof.
  revert st. induction gens as [| gen gens IH]; intros st;
    cbn [simulate_generators map snd]; [reflexivity |].
  now rewrite IH.
Qed.

Lemma simulate_generators_count (gens : list (generator c))
    (st : writer_state R c * scatterer c) :
  List.length (particles R c (fst (fst (simulate_generators R c gens st)))) =
  (List.length (particles R c (fst st)) +
   list_sum (map (fun gen => List.length (fst (generate c gen))) gens))%nat.
Proof.
  assert (Hcons : forall a l, list_sum (a :: l) = (a + list_sum l)%nat)
    by reflexivity.
  revert st. induction gens as [| gen gens IH]; intros st;
    cbn [simulate_generators map fst].
  - change (list_sum []) with 0%nat. lia.
  - rewrite IH, Hcons. destruct st as [ws sc]. rewrite simulate_tracks_count.
    cbn [fst]. lia.
Qed.

Lemma simulate_event_count (event_id : Z) (main : main_generator c)
    (gens : list (generator c)) :
  List.length (particles R c (fst (fst (simulate_event R c event_id main gens)))) =
  (List.length (fst (main_pass c main)) +
   list_sum (map (fun gen => List.length (fst (generate c gen))) gens))%nat.
Proof.
  unfold simulate_event. cbn [fst]. rewrite simulate_generators_count.
  pose proof (simulate_tracks_count (fst (main_pass c main))
                {| particle_id := first_particle_id c; particles := [] |}
                (set_seed c event_id)) as Hc.
  cbn [particles List.length] in Hc. lia.
Qed.

Lemma after_passes_next (gens : list (generator c)) (k : nat) :
  map (fun gen => after_passes R c gen k)
    (map (fun gen => snd (generate c gen)) gens) =
  map (fun gen => after_passes R c gen (S k)) gens.
Proof. rewrite map_map. reflexivity. Qed.

(** The event loop over consecutive events: event number [k] of the loop
    finds every generator advanced by [k] passes. *)
Lemma run_events_fold (n : nat) (first : Z) (sim : simulator R c) :
  fold_left (fun s i => run_event R c i s) (Loop.indices first n) sim =
  mk_simulator R c
    (main_after_passes R c (m_track_generator R c sim) n)
    (map (fun gen => after_passes R c gen n) (generators R c sim))
    (written R c sim ++
     map (fun k =>
            fst (fst (simulate_event R c (first + Z.of_nat k)
                        (main_after_passes R c (m_track_generator R c sim) k)
                        (map (fun gen => after_passes R c gen k)
                           (generators R c sim)))))
       (seq 0 n))%list.
Proof.
  revert first sim. induction n as [| n IH]; intros first sim.
  - destruct sim as [main gens done].
    cbn [Loop.indices seq map fold_left main_after_passes after_passes
         m_track_generator generators written].
    now rewrite map_id, app_nil_r.
  - rewrite indices_cons, fold_left_cons, IH.
    unfold run_event at 1 2 3 4 5.
    cbn [m_track_generator generators written main_after_passes].
    assert (Hgens : snd (simulate_event R c first (m_track_generator R c sim)
                           (generators R c sim)) =
                    map (fun gen => snd (generate c gen)) (generators R c sim))
      by apply simulate_generators_after.
    assert (Hmain : snd (fst (simulate_event R c first (m_track_generator R c sim)
                                (generators R c sim))) =
                    snd (main_pass c (m_track_generator R c sim))) by reflexivity.
    rewrite Hgens, Hmain, after_passes_next.
    f_equal. rewrite <- app_assoc. f_equal.
    change (seq 0 (S n)) with (0%nat :: seq 1 n).
    rewrite <- seq_shift. cbn [map app]. rewrite (map_map S).
    f_equal.
    + cbn [main_after_passes after_passes Z.of_nat]. now rewrite Z.add_0_r, map_id.
    + apply map_ext. intros k. rewrite after_passes_next.
      replace (first + 1 + Z.of_nat k) with (first + Z.of_nat (S k)) by lia.
      reflexivity.
Qed.

Lemma uint64_visited (m_events : Z) :
  Loop.visited 64 (uint64 m_events) (Loop.wrap_lt 64 m_events Loop.width_64) 0 =
  Loop.indices 0 (Z.to_nat (uint64 m_events)).
Proof.
  assert (H : 0 <= uint64 m_events)
    by (unfold uint64, wrap; apply Z.mod_pos_bound; lia).
  apply visited_indices; lia.
Qed.

(** The writer states of a run, event by event. *)
Lemma run_states (m_events : Z) (main : main_generator c)
    (pu : list (configuration (coordinate R))) :
  run R c m_events main pu =
  map (fun k =>
         fst (fst (simulate_event R c (Z.of_nat k)
                     (main_after_passes R c main k)
                     (map (fun gen => after_passes R c gen k)
                        (map (make_generator c) pu)))))
    (seq 0 (Z.to_nat (uint64 m_events))).
Proof.
  unfold run. rewrite for_range_fold, uint64_visited, run_events_fold.
  cbn [written m_track_generator generators app]. reflexivity.
Qed.

Lemma run_counts (m_events : Z) (main : main_generator c)
    (pu : list (configuration (coordinate R))) :
  particle_counts c (run R c m_events main pu) =
  map (fun k =>
         (List.length (fst (main_pass c (main_after_passes R c main k))) +
          list_sum (map (fun cfg => pass_count R c (make_generator c cfg) k) pu))%nat)
    (seq 0 (Z.to_nat (uint64 m_events))).
Proof.
  rewrite run_states. unfold particle_counts. rewrite map_map.
  apply map_ext. intros k. rewrite simulate_event_count, !map_map. reflexivity.
Qed.

Lemma generated_counts (pu1 pu2 : list (configuration (coordinate R))) (k : nat) :
  (forall g1 g2 j, without_origin R g1 = without_origin R g2 ->
                   pass_count R c (make_generator c g1) j =
                   pass_count R c (make_generator c g2) j) ->
  map (without_origin R) pu1 = map (without_origin R) pu2 ->
  map (fun cfg => pass_count R c (make_generator c cfg) k) pu1 =
  map (fun cfg => pass_count R c (make_generator c cfg) k) pu2.
Proof.
  intros Hgen. revert pu2. induction pu1 as [| g1 pu1 IH]; intros pu2 H;
    destruct pu2 as [| g2 pu2]; cbn [map] in *; try discriminate; [reflexivity |].
  assert (H1 : without_origin R g1 = without_origin R g2)
    by exact (f_equal (hd (without_origin R g1)) H).
  assert (H2 : map (without_origin R) pu1 = map (without_origin R) pu2)
    by exact (f_equal (@tl _) H).
  f_equal; [now apply Hgen | now apply IH].
Qed.

End PileUpFacts.

(** Every pass of a pile-up generator of the sample simulation yields as
    many tracks as its configuration asks for. *)
Lemma sample_pass_count (seed_cast : Z -> Z)
    (gen : PileUp.generator (Demo.sim_with seed_cast)) (k : nat) :
  PileUp.pass_count Demo.rng (Demo.sim_with seed_cast) gen k =
  Z.to_nat (PileUp.n_tracks (fst gen)).
Proof.
  unfold PileUp.pass_count. revert gen.
  induction k as [| k IH]; intros gen; cbn [PileUp.after_passes].
  - cbn. now rewrite length_map, length_seq.
  - rewrite IH. reflexivity.
Qed.

(** C1 as the code has it.  [setup_pu] creates one generator per index
    below [nvtx]; its track count, charge randomisation, angular and
    momentum ranges and seed (the default seed plus the index) are fixed
    by the arguments and are the same whatever the random device returns.
    If the number of tracks that each pass of a generator yields does not
    depend on its vertex position, every event of [run] writes the same
    number of particles in two such runs.  The vertex positions are drawn
    from an engine seeded with the value of the random device: two
    set-ups agree on them whenever that value seeds the engine alike, and
    with at least one vertex they differ as soon as the first draw
    differs. *)
Theorem setup_pu_fixes_all_but_vertex_positions
    (R : PileUp.random_source) (c : PileUp.collaborators R)
    (e1 e2 nvtx ntrk m_events : Z) (main : PileUp.main_generator c) :
  - 2 ^ 31 <= nvtx < 2 ^ 31 ->
  (forall g1 g2 k,
     PileUp.without_origin R g1 = PileUp.without_origin R g2 ->
     PileUp.pass_count R c (PileUp.make_generator c g1) k =
     PileUp.pass_count R c (PileUp.make_generator c g2) k) ->
  let pu1 := PileUp.setup_pu R c e1 nvtx ntrk in
  let pu2 := PileUp.setup_pu R c e2 nvtx ntrk in
  map (PileUp.without_origin R) pu1 =
    map (PileUp.fixed_part c ntrk) (Loop.indices 0 (Z.to_nat nvtx)) /\
  map (PileUp.without_origin R) pu1 = map (PileUp.without_origin R) pu2 /\
  List.length pu1 = Z.to_nat nvtx /\
  PileUp.particle_counts c (PileUp.run R c m_events main pu1) =
    PileUp.particle_counts c (PileUp.run R c m_events main pu2) /\
  (PileUp.seed_engine R e1 = PileUp.seed_engine R e2 -> pu1 = pu2) /\
  (0 < nvtx ->
   fst (fst (PileUp.draw R (PileUp.normal_distribution R 0 54) (PileUp.seed_engine R e1))) <>
   fst (fst (PileUp.draw R (PileUp.normal_distribution R 0 54) (PileUp.seed_engine R e2))) ->
   pu1 <> pu2).
Proof.
  intros Hint Hgen pu1 pu2.
  assert (Hsame : Machine.int32 nvtx = nvtx).
  { unfold Machine.int32. rewrite Z.mod_small; lia. }
  rewrite <- Hsame.
  assert (H1 : map (PileUp.without_origin R) pu1 =
               map (PileUp.fixed_part c ntrk)
                 (Loop.indices 0 (Z.to_nat (Machine.int32 nvtx))))
    by apply setup_pu_fixed_part.
  assert (H2 : map (PileUp.without_origin R) pu2 =
               map (PileUp.fixed_part c ntrk)
                 (Loop.indices 0 (Z.to_nat (Machine.int32 nvtx))))
    by apply setup_pu_fixed_part.
  split; [exact H1 |]. split; [congruence |]. split; [| split; [| split]].
  - apply (f_equal (@List.length _)) in H1.
    rewrite !length_map in H1. rewrite H1.
    unfold Loop.indices. now rewrite length_map, length_seq.
  - rewrite !run_counts. apply map_ext. intros k.
    rewrite (generated_counts R c pu1 pu2 k Hgen) by congruence. reflexivity.
  - intros Heq. subst pu1 pu2. unfold PileUp.setup_pu. now rewrite Heq.
  - intros Hpos Hdraw Heq. apply Hdraw. clear Hdraw.
    subst pu1 pu2. unfold PileUp.setup_pu in Heq.
    rewrite !for_range_fold, int32_visited in Heq.
    destruct (Z.to_nat (Machine.int32 nvtx)) as [| n] eqn:Hn; [lia |].
    rewrite indices_cons in Heq. cbn [fold_left] in Heq.
    revert Heq.
    unfold PileUp.add_vertex at 2 4.
    cbn [PileUp.pu_engine PileUp.distz PileUp.distx PileUp.disty
         PileUp.m_pu_track_generators].
    destruct (PileUp.draw R (PileUp.normal_distribution R 0 54)
                (PileUp.seed_engine R e1)) as [[z1 dz1] en1].
    destruct (PileUp.draw R (PileUp.normal_distribution R 0 54)
                (PileUp.seed_engine R e2)) as [[z2 dz2] en2].
    destruct (PileUp.draw R (PileUp.normal_distribution R 0 (4 # 100)) en1)
      as [[x1 dx1] en1'].
    destruct (PileUp.draw R (PileUp.normal_distribution R 0 (4 # 100)) en2)
      as [[x2 dx2] en2'].
    destruct (PileUp.draw R (PileUp.normal_distribution R 0 (4 # 100)) en1')
      as [[y1 dy1] en1''].
    destruct (PileUp.draw R (PileUp.normal_distribution R 0 (4 # 100)) en2')
      as [[y2 dy2] en2''].
    cbn [app fst]. intros Heq.
    match type of Heq with
    | PileUp.m_pu_track_generators R (fold_left _ ?l ?s1) =
      PileUp.m_pu_track_generators R (fold_left _ ?l ?s2) =>
        destruct (fold_add_vertex_prefix R c ntrk l s1) as [r1 Hr1];
        destruct (fold_add_vertex_prefix R c ntrk l s2) as [r2 Hr2]
    end.
    rewrite Hr1, Hr2 in Heq. cbn [PileUp.m_pu_track_generators app] in Heq.
    injection Heq as Hz _. congruence.
Qed.

(** Two vertices of three tracks each: the particle counts of two events
    agree whether the random device returns 1 or 2. *)
Lemma setup_pu_fixes_all_but_vertex_positions_witness :
  PileUp.particle_counts Demo.sim
    (PileUp.run Demo.rng Demo.sim 2 0 (PileUp.setup_pu Demo.rng Demo.sim 1 2 3)) =
  PileUp.particle_counts Demo.sim
    (PileUp.run Demo.rng Demo.sim 2 0 (PileUp.setup_pu Demo.rng Demo.sim 2 2 3)).
Proof.
  refine (proj1 (proj2 (proj2 (proj2
    (setup_pu_fixes_all_but_vertex_positions Demo.rng Demo.sim 1 2 2 3 2 0
       ltac:(lia) _))))).
  intros g1 g2 k H. unfold Demo.sim. rewrite !sample_pass_count.
  cbn [PileUp.make_generator Demo.sim_with fst].
  unfold PileUp.without_origin in H.
  assert (Hn : PileUp.n_tracks g1 = PileUp.n_tracks g2) by (now inversion H).
  exact (f_equal Z.to_nat Hn).
Defined.

(** C1, counterexample.  With the minimal standard engine and a sampler
    that returns the raw engine output, the generators set up when the
    random device returns 1 differ from those set up when it returns 2:
    the position of the single vertex is not the same. *)
Lemma setup_pu_depends_on_random_device_counterexample :
  ~ PileUp.setup_pu_ignores_entropy.
Proof.
  intros H. specialize (H Demo.rng Demo.sim 1 2 1 1).
  vm_compute in H. discriminate H.
Qed.

(** * Further properties of the writers *)

(** ** Delimited text *)

Lemma fields_length (ch : ascii) (t : string) :
  List.length (Text.fields ch t) = S (Text.count_char ch t).
Proof.
  induction t as [| a r IH]; cbn [Text.fields Text.count_char]; [reflexivity |].
  destruct (Ascii.eqb a ch); cbn [List.length].
  - now rewrite IH.
  - destruct (Text.fields ch r) as [| f rest]; cbn [List.length] in *; [discriminate | exact IH].
Qed.

Lemma uint_has_only_digits (ch : ascii) (d : Decimal.uint) :
  Text.is_digit ch = false ->
  Text.count_char ch (NilZero.string_of_uint d) = 0%nat.
Proof.
  intros H.
  assert (Hd : forall a, Text.is_digit a = true -> Ascii.eqb a ch = false).
  { intros a Ha. destruct (Ascii.eqb a ch) eqn:He; [| reflexivity].
    apply Ascii.eqb_eq in He. subst a. congruence. }
  assert (Hne : Text.count_char ch (NilEmpty.string_of_uint d) = 0%nat).
  { induction d as [| u IH | u IH | u IH | u IH | u IH | u IH | u IH | u IH
                    | u IH | u IH];
      cbn [NilEmpty.string_of_uint Text.count_char]; try reflexivity;
      rewrite Hd by reflexivity; exact IH. }
  destruct d; try exact Hne.
  cbn [NilZero.string_of_uint Text.count_char]. now rewrite Hd by reflexivity.
Qed.

(** The decimal rendering of an integer holds digits and at most a
    leading minus sign. *)
Lemma decimal_has_only_digits (ch : ascii) (z : Z) :
  Text.is_digit ch = false -> ch <> "-"%char ->
  Text.count_char ch (Demo.decimal z) = 0%nat.
Proof.
  intros Hd Hm. unfold Demo.decimal, NilZero.string_of_int.
  destruct (Z.to_int z) as [d | d].
  - now apply uint_has_only_digits.
  - cbn [Text.count_char].
    destruct (Ascii.eqb "-" ch) eqn:He.
    + apply Ascii.eqb_eq in He. congruence.
    + now apply uint_has_only_digits.
Qed.

Section RowsFacts.
Import Text MyWrite Writers.
Context {X : Type} (put_row : ofstream -> X -> ofstream) (row : X -> string).
Hypothesis put_row_open : forall name t x,
  put_row (mk_ofstream name true t) x = mk_ofstream name true (t ++ row x ++ endl).
Hypothesis put_row_closed : forall name t x,
  put_row (mk_ofstream name false t) x = mk_ofstream name false t.

Lemma fold_rows_open (l : list X) (name t : string) :
  fold_left put_row l (mk_ofstream name true t) =
  mk_ofstream name true (t ++ rows_text row l).
Proof.
  revert t. induction l as [| x l IH]; intros t.
  - unfold rows_text. cbn [fold_left fold_right]. now rewrite append_empty_r.
  - rewrite fold_left_cons, put_row_open, IH. f_equal.
    unfold rows_text. cbn [fold_right]. rewrite !append_assoc. reflexivity.
Qed.

Lemma fold_rows_closed (l : list X) (name t : string) :
  fold_left put_row l (mk_ofstream name false t) = mk_ofstream name false t.
Proof.
  induction l as [| x l IH]; [reflexivity |].
  rewrite fold_left_cons, put_row_closed. exact IH.
Qed.

(** A writer that opens the file afresh, writes a header line and then
    one row per element. *)
Lemma write_rows (ok : bool) (name header : string) (l : list X) (fs : files) :
  close (fold_left put_row l (open_trunc ok name << header << endl)%stream) fs =
  if ok then store name (header ++ endl ++ rows_text row l) fs else fs.
Proof.
  unfold open_trunc. destruct ok.
  - rewrite !put_mk, fold_rows_open. unfold close. cbn [is_open os_name os_text].
    f_equal. cbn [append]. now rewrite append_assoc.
  - rewrite !put_mk_closed, fold_rows_closed. reflexivity.
Qed.

End RowsFacts.

Lemma rows_text_count (ch : ascii) {X : Type} (row : X -> string) (l : list X) :
  Text.count_char ch (Writers.rows_text row l) =
  list_sum (map (fun x => (Text.count_char ch (row x) +
                           Text.count_char ch Text.endl)%nat) l).
Proof.
  induction l as [| x l IH]; [reflexivity |].
  unfold Writers.rows_text in *. cbn [fold_right map].
  change (list_sum (?a :: ?r)) with (a + list_sum r)%nat.
  rewrite !count_char_append, IH. lia.
Qed.

Lemma seed_rows_as_rows_text {link scalar : Type} (io : MyWrite.text_io link scalar)
    (seeds : list (MyWrite.seed link scalar)) :
  MyWrite.seed_rows io seeds = Writers.rows_text (MyWrite.seed_row io) seeds.
Proof. reflexivity. Qed.

Lemma list_sum_constant {X : Type} (k : nat) (f : X -> nat) (l : list X) :
  (forall x, f x = k) -> list_sum (map f l) = (k * List.length l)%nat.
Proof.
  intros H. induction l as [| x l IH]; cbn [map List.length].
  - change (list_sum []) with 0%nat. lia.
  - change (list_sum (?a :: ?r)) with (a + list_sum r)%nat. rewrite H, IH. lia.
Qed.

(** ** The seed writer as a file operation *)

(** X1. The seed writer opens its file afresh: after two calls for the
    same event, directory and device label the disk is the one that the
    second call alone would leave, and when the file opens its text is the
    header line followed by the rows of the seeds just written, whatever
    the file held before. *)
Theorem mywrite_replaces_previous_text
    {link scalar : Type} (io : MyWrite.text_io link scalar)
    (can_open : string -> bool) (event : Z) (directory device : string)
    (first second : list (MyWrite.seed link scalar)) (fs : Text.files) :
  (forall name,
     MyWrite.mywrite io can_open event directory second device
       (MyWrite.mywrite io can_open event directory first device fs) name =
     MyWrite.mywrite io can_open event directory second device fs name) /\
  (can_open (MyWrite.seeds_filename io event directory device) = true ->
   MyWrite.mywrite io can_open event directory second device fs
     (MyWrite.seeds_filename io event directory device) =
   Some (MyWrite.seeds_header ++ Text.endl ++ MyWrite.seed_rows io second)).
Proof.
  split.
  - intros name. rewrite !mywrite_store.
    destruct (can_open (MyWrite.seeds_filename io event directory device));
      [| reflexivity].
    unfold Text.store.
    destruct (String.eqb name (MyWrite.seeds_filename io event directory device));
      reflexivity.
  - intros Hopen. rewrite mywrite_store, Hopen. apply store_lookup.
Qed.

(** X2. The seed writer changes no file other than the one it names, and
    when that file cannot be opened it changes nothing at all. *)
Theorem mywrite_touches_only_its_file
    {link scalar : Type} (io : MyWrite.text_io link scalar)
    (can_open : string -> bool) (event : Z) (directory device : string)
    (seeds : list (MyWrite.seed link scalar)) (fs : Text.files) :
  (forall name,
     name <> MyWrite.seeds_filename io event directory device ->
     MyWrite.mywrite io can_open event directory seeds device fs name = fs name) /\
  (can_open (MyWrite.seeds_filename io event directory device) = false ->
   forall name,
     MyWrite.mywrite io can_open event directory seeds device fs name = fs name).
Proof.
  split.
  - intros name Hother. rewrite mywrite_store.
    destruct (can_open (MyWrite.seeds_filename io event directory device));
      [| reflexivity].
    unfold Text.store.
    destruct (String.eqb name (MyWrite.seeds_filename io event directory device))
      eqn:He; [| reflexivity].
    apply String.eqb_eq in He. contradiction.
  - intros Hno name. now rewrite mywrite_store, Hno.
Qed.

(** X3. When the printed field values contain no line break, the seed
    file written for [n] seeds has exactly [n + 1] lines: the header and
    one row per seed. *)
Theorem seed_file_has_one_line_per_seed
    {link scalar : Type} (io : MyWrite.text_io link scalar)
    (can_open : string -> bool) (event : Z) (directory device : string)
    (seeds : list (MyWrite.seed link scalar)) (fs : Text.files) :
  (forall l, Text.count_char Text.newline (MyWrite.show_link io l) = 0%nat) ->
  (forall v, Text.count_char Text.newline (MyWrite.show_scalar io v) = 0%nat) ->
  can_open (MyWrite.seeds_filename io event directory device) = true ->
  exists text,
    MyWrite.mywrite io can_open event directory seeds device fs
      (MyWrite.seeds_filename io event directory device) = Some text /\
    Text.count_char Text.newline text = S (List.length seeds).
Proof.
  intros Hlink Hscalar Hopen.
  exists (MyWrite.seeds_header ++ Text.endl ++ MyWrite.seed_rows io seeds)%string.
  split; [rewrite mywrite_store, Hopen; apply store_lookup |].
  rewrite !count_char_append, seed_rows_as_rows_text, rows_text_count.
  rewrite (list_sum_constant 1%nat).
  - change (Text.count_char Text.newline MyWrite.seeds_header) with 0%nat.
    change (Text.count_char Text.newline Text.endl) with 1%nat. lia.
  - intros sd. unfold MyWrite.seed_row.
    rewrite !count_char_append, !Hlink, !Hscalar.
    change (Text.count_char Text.newline ",") with 0%nat.
    change (Text.count_char Text.newline Text.endl) with 1%nat. lia.
Qed.

(** Two seeds written with the sample formats give a file of three lines. *)
Lemma seed_file_has_one_line_per_seed_witness :
  exists text,
    MyWrite.mywrite Demo.io (fun _ => true) 4 "out/" [Demo.one_seed; Demo.one_seed] "cuda"
      Text.no_files (MyWrite.seeds_filename Demo.io 4 "out/" "cuda") = Some text /\
    Text.count_char Text.newline text = 3%nat.
Proof.
  refine (seed_file_has_one_line_per_seed Demo.io (fun _ => true) 4 "out/" "cuda"
            [Demo.one_seed; Demo.one_seed] Text.no_files _ _ _).
  - intros l. apply decimal_has_only_digits; [reflexivity | discriminate].
  - intros v. apply decimal_has_only_digits; [reflexivity | discriminate].
  - reflexivity.
Defined.

(** ** The writers of the other collections *)

Section OverloadFacts.
Import Text MyWrite Writers.
Context {link scalar : Type} (io : text_io link scalar).

Lemma put_cell_open (name t : string) (cl : Cell.t link scalar) :
  put_cell io (mk_ofstream name true t) cl =
  mk_ofstream name true (t ++ cell_row io cl ++ endl).
Proof.
  unfold put_cell, cell_row. rewrite !put_mk. f_equal.
  rewrite !append_assoc. reflexivity.
Qed.

Lemma put_cell_closed (name t : string) (cl : Cell.t link scalar) :
  put_cell io (mk_ofstream name false t) cl = mk_ofstream name false t.
Proof. unfold put_cell. rewrite !put_mk_closed. reflexivity. Qed.

Lemma put_module_open (name t : string) (md : CellModule.t scalar) :
  put_module io (mk_ofstream name true t) md =
  mk_ofstream name true (t ++ module_row io md ++ endl).
Proof.
  unfold put_module, module_row. rewrite !put_mk. f_equal.
  rewrite !append_assoc. reflexivity.
Qed.

Lemma put_module_closed (name t : string) (md : CellModule.t scalar) :
  put_module io (mk_ofstream name false t) md = mk_ofstream name false t.
Proof. unfold put_module. rewrite !put_mk_closed. reflexivity. Qed.

Lemma put_measurement_open (name t : string) (am : Measurement.t link scalar) :
  put_measurement io (mk_ofstream name true t) am =
  mk_ofstream name true (t ++ measurement_row io am ++ endl).
Proof.
  unfold put_measurement, measurement_row. rewrite !put_mk. f_equal.
  rewrite !append_assoc. reflexivity.
Qed.

Lemma put_measurement_closed (name t : string) (am : Measurement.t link scalar) :
  put_measurement io (mk_ofstream name false t) am = mk_ofstream name false t.
Proof. unfold put_measurement. rewrite !put_mk_closed. reflexivity. Qed.

Lemma put_params_fields_open (name t : string) (tp : Params.t scalar) :
  put_params_fields io (mk_ofstream name true t) tp =
  mk_ofstream name true (t ++ params_row io tp).
Proof.
  unfold put_params_fields, params_row. rewrite !put_mk. f_equal.
  rewrite !append_assoc. reflexivity.
Qed.

Lemma put_params_fields_closed (name t : string) (tp : Params.t scalar) :
  put_params_fields io (mk_ofstream name false t) tp = mk_ofstream name false t.
Proof. unfold put_params_fields. rewrite !put_mk_closed. reflexivity. Qed.

Lemma put_params_open (name t : string) (tp : Params.t scalar) :
  put_params io (mk_ofstream name true t) tp =
  mk_ofstream name true (t ++ params_row io tp ++ endl).
Proof.
  unfold put_params. rewrite put_params_fields_open, put_mk. f_equal.
  now rewrite append_assoc.
Qed.

Lemma put_params_closed (name t : string) (tp : Params.t scalar) :
  put_params io (mk_ofstream name false t) tp = mk_ofstream name false t.
Proof. unfold put_params. now rewrite put_params_fields_closed, put_mk_closed. Qed.

Lemma put_fitted_open (name t : string) (tf : FitResult.t scalar) :
  put_fitted io (mk_ofstream name true t) tf =
  mk_ofstream name true (t ++ fitted_row io tf ++ endl).
Proof.
  unfold put_fitted, fitted_row. rewrite put_params_fields_open, !put_mk. f_equal.
  rewrite !append_assoc. reflexivity.
Qed.

Lemma put_fitted_closed (name t : string) (tf : FitResult.t scalar) :
  put_fitted io (mk_ofstream name false t) tf = mk_ofstream name false t.
Proof.
  unfold put_fitted. now rewrite put_params_fields_closed, !put_mk_closed.
Qed.

(** The index loop of the fitted-track writer visits the headers of the
    container in order. *)
Lemma put_fitted_at_all {I : Type}
    (done rest : list (SeqRun.container_element (FitResult.t scalar) I))
    (out : ofstream) :
  fold_left (fun o i => put_fitted_at io (done ++ rest) i o)
    (Loop.indices (Z.of_nat (List.length done)) (List.length rest)) out =
  fold_left (fun o trk => put_fitted io o (SeqRun.header trk)) rest out.
Proof.
  revert done out. induction rest as [| trk rest IH]; intros done out.
  - reflexivity.
  - cbn [List.length]. rewrite indices_cons, !fold_left_cons.
    unfold put_fitted_at at 2.
    rewrite Nat2Z.id, nth_error_app2, Nat.sub_diag by lia.
    cbn [nth_error].
    replace (done ++ trk :: rest)%list with ((done ++ [trk]) ++ rest)%list
      by (now rewrite <- app_assoc).
    replace (Z.of_nat (List.length done) + 1)
      with (Z.of_nat (List.length (done ++ [trk])))
      by (rewrite length_app; cbn [List.length]; lia).
    apply IH.
Qed.

End OverloadFacts.

Section PrecisionFacts.
Import Text MyWrite Writers.
Context {link scalar : Type} (io : text_io link scalar).
Variable show_scalar_at : nat -> scalar -> string.

Lemma put_text_open (name t u : string) (p : nat) :
  put_text (mk_pstream (mk_ofstream name true t) p) u =
  mk_pstream (mk_ofstream name true (t ++ u)) p.
Proof. reflexivity. Qed.

Lemma put_text_closed (name t u : string) (p : nat) :
  put_text (mk_pstream (mk_ofstream name false t) p) u =
  mk_pstream (mk_ofstream name false t) p.
Proof. reflexivity. Qed.

Lemma put_scalar_open (name t : string) (p : nat) (v : scalar) :
  put_scalar show_scalar_at (mk_pstream (mk_ofstream name true t) p) v =
  mk_pstream (mk_ofstream name true (t ++ show_scalar_at p v)) p.
Proof. reflexivity. Qed.

Lemma put_scalar_closed (name t : string) (p : nat) (v : scalar) :
  put_scalar show_scalar_at (mk_pstream (mk_ofstream name false t) p) v =
  mk_pstream (mk_ofstream name false t) p.
Proof. reflexivity. Qed.

Lemma setprecision_mk (o : ofstream) (p k : nat) :
  setprecision k (mk_pstream o p) = mk_pstream o k.
Proof. reflexivity. Qed.

(** After one spacepoint the precision of the stream is 12, and the four
    coordinates of the row, the radius included, were written at 12. *)
Lemma put_spacepoint_open (name t : string) (p : nat) (sp : Spacepoint.t scalar) :
  put_spacepoint io show_scalar_at (mk_pstream (mk_ofstream name true t) p) sp =
  mk_pstream
    (mk_ofstream name true (t ++ spacepoint_row io show_scalar_at sp ++ endl)) 12.
Proof.
  unfold put_spacepoint, spacepoint_row. cbv zeta.
  repeat first [rewrite put_text_open | rewrite setprecision_mk
               | rewrite put_scalar_open].
  f_equal. f_equal. rewrite !append_assoc. reflexivity.
Qed.

Lemma put_spacepoint_closed (name t : string) (p : nat) (sp : Spacepoint.t scalar) :
  ps_out (put_spacepoint io show_scalar_at
            (mk_pstream (mk_ofstream name false t) p) sp) =
  mk_ofstream name false t /\
  exists q, put_spacepoint io show_scalar_at
              (mk_pstream (mk_ofstream name false t) p) sp =
            mk_pstream (mk_ofstream name false t) q.
Proof.
  unfold put_spacepoint. cbv zeta.
  repeat first [rewrite put_text_closed | rewrite setprecision_mk
               | rewrite put_scalar_closed].
  split; [reflexivity | now exists 12%nat].
Qed.

Lemma put_spacepoints_open (l : list (Spacepoint.t scalar)) (name t : string) (p : nat) :
  ps_out (fold_left (put_spacepoint io show_scalar_at) l
            (mk_pstream (mk_ofstream name true t) p)) =
  mk_ofstream name true (t ++ rows_text (spacepoint_row io show_scalar_at) l).
Proof.
  revert t p. induction l as [| sp l IH]; intros t p.
  - unfold rows_text. cbn [fold_left fold_right ps_out]. now rewrite append_empty_r.
  - rewrite fold_left_cons, put_spacepoint_open, IH. f_equal.
    unfold rows_text. cbn [fold_right]. rewrite !append_assoc. reflexivity.
Qed.

Lemma put_spacepoints_closed (l : list (Spacepoint.t scalar)) (name t : string) (p : nat) :
  ps_out (fold_left (put_spacepoint io show_scalar_at) l
            (mk_pstream (mk_ofstream name false t) p)) =
  mk_ofstream name false t.
Proof.
  revert p. induction l as [| sp l IH]; intros p; [reflexivity |].
  rewrite fold_left_cons.
  destruct (put_spacepoint_closed name t p sp) as [_ [q Hq]].
  rewrite Hq. apply IH.
Qed.

End PrecisionFacts.

(** X4. The writers of cells, modules, measurements and track parameters
    replace the text of their file by the header line followed by one row
    per element, in order.  When the printed values contain no comma every
    row has as many comma-separated fields as the header names: 5, 6, 5
    and 7. *)
Theorem delimited_rows_match_their_header
    {link scalar : Type} (io : MyWrite.text_io link scalar)
    (can_open : string -> bool) (event : Z) (directory device : string)
    (fs : Text.files)
    (cells : list (Writers.Cell.t link scalar))
    (modules : list (Writers.CellModule.t scalar))
    (measurements : list (Writers.Measurement.t link scalar))
    (params : list (Writers.Params.t scalar)) :
  (forall l, Text.count_char Text.comma (MyWrite.show_link io l) = 0%nat) ->
  (forall v, Text.count_char Text.comma (MyWrite.show_scalar io v) = 0%nat) ->
  (forall n, Text.count_char Text.comma (MyWrite.show_size io n) = 0%nat) ->
  let written (suffix header rows : string) (after : Text.files) :=
    after (Writers.filename io event directory device suffix) =
    if can_open (Writers.filename io event directory device suffix)
    then Some (header ++ Text.endl ++ rows)%string
    else fs (Writers.filename io event directory device suffix) in
  let width (t : string) := List.length (Text.fields Text.comma t) in
  written "-cells.txt" Writers.cells_header
    (Writers.rows_text (Writers.cell_row io) cells)
    (Writers.mywrite_cells io can_open event directory cells device fs) /\
  written "-modules.txt" Writers.modules_header
    (Writers.rows_text (Writers.module_row io) modules)
    (Writers.mywrite_modules io can_open event directory modules device fs) /\
  written "-measurements.txt" Writers.measurements_header
    (Writers.rows_text (Writers.measurement_row io) measurements)
    (Writers.mywrite_measurements io can_open event directory measurements device fs) /\
  written "-params.txt" Writers.params_header
    (Writers.rows_text (Writers.params_row io) params)
    (Writers.mywrite_params io can_open event directory params device fs) /\
  (forall cl, width (Writers.cell_row io cl) = 5%nat) /\
  width Writers.cells_header = 5%nat /\
  (forall md, width (Writers.module_row io md) = 6%nat) /\
  width Writers.modules_header = 6%nat /\
  (forall am, width (Writers.measurement_row io am) = 5%nat) /\
  width Writers.measurements_header = 5%nat /\
  (forall tp, width (Writers.params_row io tp) = 7%nat) /\
  width Writers.params_header = 7%nat.
Proof.
  intros Hlink Hscalar Hsize written width. subst written width. cbv beta.
  assert (Hcomma : Text.count_char Text.comma "," = 1%nat) by reflexivity.
  repeat match goal with |- _ /\ _ => split end.
  - unfold Writers.mywrite_cells.
    rewrite (write_rows (Writers.put_cell io) (Writers.cell_row io)
               (put_cell_open io) (put_cell_closed io)).
    destruct (can_open _); [apply store_lookup | reflexivity].
  - unfold Writers.mywrite_modules.
    rewrite (write_rows (Writers.put_module io) (Writers.module_row io)
               (put_module_open io) (put_module_closed io)).
    destruct (can_open _); [apply store_lookup | reflexivity].
  - unfold Writers.mywrite_measurements.
    rewrite (write_rows (Writers.put_measurement io) (Writers.measurement_row io)
               (put_measurement_open io) (put_measurement_closed io)).
    destruct (can_open _); [apply store_lookup | reflexivity].
  - unfold Writers.mywrite_params.
    rewrite (write_rows (Writers.put_params io) (Writers.params_row io)
               (put_params_open io) (put_params_closed io)).
    destruct (can_open _); [apply store_lookup | reflexivity].
  - intros cl. rewrite fields_length. unfold Writers.cell_row.
    rewrite !count_char_append, !Hlink, !Hscalar, !Hsize, !Hcomma. reflexivity.
  - reflexivity.
  - intros md. rewrite fields_length. unfold Writers.module_row.
    rewrite !count_char_append, !Hscalar, !Hsize, !Hcomma. reflexivity.
  - reflexivity.
  - intros am. rewrite fields_length. unfold Writers.measurement_row.
    rewrite !count_char_append, !Hlink, !Hscalar, !Hcomma. reflexivity.
  - reflexivity.
  - intros tp. rewrite fields_length. unfold Writers.params_row.
    rewrite !count_char_append, !Hscalar, !Hsize, !Hcomma. reflexivity.
  - reflexivity.
Qed.

(** One cell, one module, one measurement and one parameter set written
    with the sample formats: the cell row has five fields. *)
Lemma delimited_rows_match_their_header_witness :
  List.length
    (Text.fields Text.comma
       (Writers.cell_row Demo.io (Writers.Cell.mk 7%N 1 2 30 4))) = 5%nat.
Proof.
  refine (proj1 (proj2 (proj2 (proj2 (proj2
    (delimited_rows_match_their_header Demo.io (fun _ => true) 0 "out/" "cpu"
       Text.no_files
       [Writers.Cell.mk 7%N 1 2 30 4]
       [Writers.CellModule.mk 3 10 0 0 50 50]
       [Writers.Measurement.mk 7%N 1 2 3 4]
       [Writers.Params.mk 3 1 2 3 4 5 6] _ _ _))))) _).
  - intros l. apply decimal_has_only_digits; [reflexivity | discriminate].
  - intros v. apply decimal_has_only_digits; [reflexivity | discriminate].
  - intros n. apply decimal_has_only_digits; [reflexivity | discriminate].
Defined.

(** X5. For a container of fewer than 2^32 fitted tracks the fitted-track
    writer replaces the text of its file by the header line followed by
    one row per track, in container order, built from the fit parameters,
    the degrees of freedom and the chi-square of the track header.  When
    the printed values contain no comma every row has nine fields, as the
    header. *)
Theorem fitted_writer_writes_every_track
    {link scalar I : Type} (io : MyWrite.text_io link scalar)
    (can_open : string -> bool) (event : Z) (directory device : string)
    (tracks : list (SeqRun.container_element (Writers.FitResult.t scalar) I))
    (fs : Text.files) :
  SeqRun.size tracks < 2 ^ 32 ->
  (forall v, Text.count_char Text.comma (MyWrite.show_scalar io v) = 0%nat) ->
  (forall n, Text.count_char Text.comma (MyWrite.show_size io n) = 0%nat) ->
  let name := Writers.filename io event directory device "-fitted.txt" in
  Writers.mywrite_fitted io can_open event directory tracks device fs name =
    (if can_open name
     then Some (Writers.fitted_header ++ Text.endl ++
                Writers.rows_text
                  (fun trk => Writers.fitted_row io (SeqRun.header trk)) tracks)%string
     else fs name) /\
  (forall tf,
     List.length (Text.fields Text.comma (Writers.fitted_row io tf)) = 9%nat) /\
  List.length (Text.fields Text.comma Writers.fitted_header) = 9%nat.
Proof.
  intros Hsmall Hscalar Hsize name. subst name.
  split; [| split; [| reflexivity]].
  - unfold Writers.mywrite_fitted. rewrite for_range_fold.
    rewrite (visited_indices 32 _ _ (List.length tracks) 0);
      [| lia | unfold Machine.uint32, Machine.wrap, SeqRun.size in *;
               rewrite Z.mod_small; lia].
    rewrite (put_fitted_at_all io [] tracks).
    rewrite (write_rows (fun o trk => Writers.put_fitted io o (SeqRun.header trk))
               (fun trk => Writers.fitted_row io (SeqRun.header trk))
               (fun n t trk => put_fitted_open io n t (SeqRun.header trk))
               (fun n t trk => put_fitted_closed io n t (SeqRun.header trk))).
    destruct (can_open _); [apply store_lookup | reflexivity].
  - intros tf. rewrite fields_length. unfold Writers.fitted_row, Writers.params_row.
    rewrite !count_char_append, !Hscalar, !Hsize.
    change (Text.count_char Text.comma ",") with 1%nat. reflexivity.
Qed.

(** Two fitted tracks written with the sample formats. *)
Lemma fitted_writer_writes_every_track_witness :
  List.length
    (Text.fields Text.comma
       (Writers.fitted_row Demo.io
          (Writers.FitResult.mk (Writers.Params.mk 3 1 2 3 4 5 6) 8 9))) = 9%nat.
Proof.
  refine (proj1 (proj2
    (fitted_writer_writes_every_track (I := unit) Demo.io (fun _ => true) 0 "out/" "cuda"
       [SeqRun.mk_element
          (Writers.FitResult.mk (Writers.Params.mk 3 1 2 3 4 5 6) 8 9) [tt];
        SeqRun.mk_element
          (Writers.FitResult.mk (Writers.Params.mk 4 1 2 3 4 5 6) 2 1) []]
       Text.no_files _ _ _)) _).
  - vm_compute. reflexivity.
  - intros v. apply decimal_has_only_digits; [reflexivity | discriminate].
  - intros n. apply decimal_has_only_digits; [reflexivity | discriminate].
Defined.

(** X6. The spacepoint writer replaces the text of its file by the header
    line followed by one row per spacepoint.  In every row, the first one
    included, the three coordinates and the radius are all written at
    precision 12: the precision set for a coordinate stays in force for
    the radius, to which no precision is applied, and the default
    precision of the stream is never used. *)
Theorem spacepoint_writer_keeps_precision_twelve
    {link scalar : Type} (io : MyWrite.text_io link scalar)
    (show_scalar_at : nat -> scalar -> string)
    (can_open : string -> bool) (event : Z) (directory device : string)
    (spacepoints : list (Writers.Spacepoint.t scalar)) (fs : Text.files) :
  let name := Writers.filename io event directory device "-spacepoints.txt" in
  let row (sp : Writers.Spacepoint.t scalar) :=
    (MyWrite.show_size io (Writers.Spacepoint.surface_index sp) ++ "," ++
     show_scalar_at 12%nat (Writers.Spacepoint.x sp) ++ "," ++
     show_scalar_at 12%nat (Writers.Spacepoint.y sp) ++ "," ++
     show_scalar_at 12%nat (Writers.Spacepoint.z sp) ++ "," ++
     show_scalar_at 12%nat (Writers.Spacepoint.radius sp))%string in
  Writers.mywrite_spacepoints io can_open show_scalar_at event directory
    spacepoints device fs name =
  if can_open name
  then Some (Writers.spacepoints_header ++ Text.endl ++
             Writers.rows_text row spacepoints)%string
  else fs name.
Proof.
  intros name row. subst name row.
  unfold Writers.mywrite_spacepoints, Text.open_trunc.
  destruct (can_open (Writers.filename io event directory device "-spacepoints.txt")).
  - rewrite !put_text_open, put_spacepoints_open.
    unfold Text.close. cbn [Text.is_open Text.os_name Text.os_text].
    rewrite store_lookup. reflexivity.
  - rewrite !put_text_closed, put_spacepoints_closed. reflexivity.
Qed.

(** * Further properties of the candidate comparison *)

Lemma filter_length_implied {X : Type} (p q : X -> bool) (l : list X) :
  (forall x, p x = true -> q x = true) ->
  (List.length (filter p l) <= List.length (filter q l))%nat.
Proof.
  intros H. induction l as [| x l IH]; cbn [filter]; [lia |].
  destruct (p x) eqn:Hp.
  - rewrite (H x Hp). cbn [List.length]. lia.
  - destruct (q x); cbn [List.length]; lia.
Qed.

Lemma filter_all {X : Type} (p : X -> bool) (l : list X) :
  (forall x, In x l -> p x = true) -> filter p l = l.
Proof.
  intros H. induction l as [| x l IH]; cbn [filter]; [reflexivity |].
  rewrite (H x (or_introl eq_refl)). f_equal. apply IH.
  intros y Hy. apply H. now right.
Qed.

Lemma count_matches_small (c : SeqRun.collaborators) (cpu cuda : SeqRun.candidates c) :
  SeqRun.size cpu < 2 ^ 32 ->
  SeqRun.count_matches c cpu cuda 0 = SeqRun.size (SeqRun.matched c cuda cpu).
Proof.
  intros Hsmall. rewrite count_matches_from by lia. cbn [Z.add].
  apply uint32_small. pose proof (matched_size c cpu cuda). lia.
Qed.

(** X7. For fewer than 2^32 CPU candidates, replacing the candidate
    equality predicate by a weaker one never lowers the number of matches
    that the comparison counts. *)
Theorem weaker_predicate_never_lowers_match_count
    (c : SeqRun.collaborators)
    (strict relaxed : list (SeqRun.measurement c) -> list (SeqRun.measurement c) -> bool)
    (cpu cuda : SeqRun.candidates c) :
  SeqRun.size cpu < 2 ^ 32 ->
  (forall a b, strict a b = true -> relaxed a b = true) ->
  SeqRun.count_matches (SeqRun.with_same_object c strict) cpu cuda 0 <=
  SeqRun.count_matches (SeqRun.with_same_object c relaxed) cpu cuda 0.
Proof.
  intros Hsmall Himp.
  rewrite (count_matches_small (SeqRun.with_same_object c strict) cpu cuda Hsmall).
  rewrite (count_matches_small (SeqRun.with_same_object c relaxed) cpu cuda Hsmall).
  unfold SeqRun.size, SeqRun.matched. apply inj_le.
  apply filter_length_implied. intros cand Hc.
  cbn [SeqRun.is_same_object SeqRun.with_same_object] in *.
  apply existsb_exists in Hc. destruct Hc as [d [Hin Hd]].
  apply existsb_exists. exists d. split; [exact Hin | now apply Himp].
Qed.

(** Exact equality of the measurement lists against a predicate that
    accepts every pair, on the candidates of the sample chain. *)
Lemma weaker_predicate_never_lowers_match_count_witness :
  SeqRun.count_matches (SeqRun.with_same_object Demo.chain Demo.same_measurements)
    (Demo.finding false [1; 2] [0]) (Demo.finding true [2; 1] [0]) 0 <=
  SeqRun.count_matches (SeqRun.with_same_object Demo.chain (fun _ _ => true))
    (Demo.finding false [1; 2] [0]) (Demo.finding true [2; 1] [0]) 0.
Proof.
  refine (weaker_predicate_never_lowers_match_count Demo.chain Demo.same_measurements
            (fun _ _ => true) (Demo.finding false [1; 2] [0])
            (Demo.finding true [2; 1] [0]) _ _).
  - vm_compute. reflexivity.
  - intros a b _. reflexivity.
Defined.

(** X8. When the equality predicate accepts every candidate against
    itself, comparing a set of fewer than 2^32 candidates with itself
    counts every candidate as matched. *)
Theorem comparing_a_set_with_itself_matches_all
    (c : SeqRun.collaborators) (cands : SeqRun.candidates c) :
  SeqRun.size cands < 2 ^ 32 ->
  (forall cand, In cand cands ->
     SeqRun.is_same_object c (SeqRun.items cand) (SeqRun.items cand) = true) ->
  SeqRun.count_matches c cands cands 0 = SeqRun.size cands.
Proof.
  intros Hsmall Hrefl. rewrite count_matches_small by exact Hsmall.
  unfold SeqRun.matched. rewrite filter_all; [reflexivity |].
  intros cand Hin. apply existsb_exists. exists cand. split; [exact Hin |].
  now apply Hrefl.
Qed.

Lemma comparing_a_set_with_itself_matches_all_witness :
  SeqRun.count_matches Demo.chain (Demo.finding true [1; 2] [0])
    (Demo.finding true [1; 2] [0]) 0 = 2.
Proof.
  refine (comparing_a_set_with_itself_matches_all Demo.chain
            (Demo.finding true [1; 2] [0]) _ _).
  - vm_compute. reflexivity.
  - intros cand Hin. cbn [SeqRun.is_same_object Demo.chain].
    unfold Demo.same_measurements.
    destruct (list_eq_dec Z.eq_dec (SeqRun.items cand) (SeqRun.items cand));
      [reflexivity | contradiction].
Defined.

(** X9. For containers of fewer than 2^32 candidates: without
    accelerator candidates no CPU candidate is matched; further
    accelerator candidates never lower the count; a CPU candidate is
    counted once even when several accelerator candidates equal it; and
    one accelerator candidate may serve as the match of several CPU
    candidates, so that listing every CPU candidate twice doubles the
    count. *)
Theorem match_count_grows_with_accelerator_candidates
    (c : SeqRun.collaborators) (cpu cuda more : SeqRun.candidates c) :
  SeqRun.size (cpu ++ cpu)%list < 2 ^ 32 ->
  SeqRun.size (cuda ++ cuda)%list < 2 ^ 32 ->
  SeqRun.size (cuda ++ more)%list < 2 ^ 32 ->
  SeqRun.count_matches c cpu [] 0 = 0 /\
  SeqRun.count_matches c cpu cuda 0 <=
    SeqRun.count_matches c cpu (cuda ++ more)%list 0 /\
  SeqRun.count_matches c cpu (cuda ++ cuda)%list 0 =
    SeqRun.count_matches c cpu cuda 0 /\
  SeqRun.count_matches c (cpu ++ cpu)%list cuda 0 =
    2 * SeqRun.count_matches c cpu cuda 0.
Proof.
  intros Hcpu _ _.
  assert (Hsmall : SeqRun.size cpu < 2 ^ 32).
  { rewrite size_app in Hcpu. unfold SeqRun.size in *. lia. }
  rewrite (count_matches_small c (cpu ++ cpu)%list) by exact Hcpu.
  rewrite !(count_matches_small c cpu) by exact Hsmall.
  split; [| split; [| split]].
  - unfold SeqRun.matched. cbn [existsb]. clear Hcpu Hsmall.
    induction cpu as [| cand cpu IH]; [reflexivity | exact IH].
  - unfold SeqRun.size, SeqRun.matched. apply inj_le.
    apply filter_length_implied. intros cand Hc.
    rewrite existsb_app, Hc. reflexivity.
  - f_equal. unfold SeqRun.matched. apply filter_ext. intros cand.
    rewrite existsb_app. apply orb_diag.
  - unfold SeqRun.matched, SeqRun.size. rewrite filter_app, length_app. lia.
Qed.

(** The candidate of the sample CPU path against the two candidates of
    the sample accelerator path: one match, with or without a third
    accelerator candidate or a repetition, and two matches when the CPU
    candidate is listed twice. *)
Lemma match_count_grows_with_accelerator_candidates_witness :
  SeqRun.count_matches Demo.chain (Demo.finding false [1; 2] [0]) [] 0 = 0 /\
  SeqRun.count_matches Demo.chain (Demo.finding false [1; 2] [0])
    (Demo.finding true [1; 2] [0]) 0 <=
    SeqRun.count_matches Demo.chain (Demo.finding false [1; 2] [0])
      (Demo.finding true [1; 2] [0] ++ Demo.finding true [2; 1] [0])%list 0 /\
  SeqRun.count_matches Demo.chain (Demo.finding false [1; 2] [0])
    (Demo.finding true [1; 2] [0] ++ Demo.finding true [1; 2] [0])%list 0 = 1 /\
  SeqRun.count_matches Demo.chain
    (Demo.finding false [1; 2] [0] ++ Demo.finding false [1; 2] [0])%list
    (Demo.finding true [1; 2] [0]) 0 = 2.
Proof.
  exact (match_count_grows_with_accelerator_candidates Demo.chain
           (Demo.finding false [1; 2] [0]) (Demo.finding true [1; 2] [0])
           (Demo.finding true [2; 1] [0])
           ltac:(vm_compute; reflexivity) ltac:(vm_compute; reflexivity)
           ltac:(vm_compute; reflexivity)).
Defined.

(** * Further properties of the sequential chain *)

Section CounterFacts.
Import Machine Text MyWrite SeqRun Measures.
Variable c : collaborators.
Variable o : options.
Variable perm : permissions.

Lemma uint64_range (z : Z) : 0 <= uint64 z < 2 ^ 64.
Proof. unfold uint64, wrap. apply Z.mod_pos_bound. reflexivity. Qed.


End CounterFacts.



Section QuietRun.
Import Machine Text MyWrite SeqRun Measures.
Variable c : collaborators.
Variable o : options.
Variable perm : permissions.
Hypothesis all_open : forall ph mode name, perm ph mode name = true.



End QuietRun.



(** ** The number file *)

Section DigitRuns.
Import Text Measures Writers.

Lemma all_digits_append (a b : string) :
  all_digits (a ++ b) = all_digits a && all_digits b.
Proof.
  induction a as [| x a IH]; cbn [append all_digits]; [reflexivity |].
  now rewrite IH, andb_assoc.
Qed.

Lemma digits_of_append (a b : string) :
  digits_of (a ++ b) = (digits_of a ++ digits_of b)%string.
Proof.
  induction a as [| x a IH]; cbn [append digits_of]; [reflexivity |].
  destruct (is_digit x); cbn [append]; now rewrite IH.
Qed.

Lemma digits_of_all_digits (t : string) : all_digits t = true -> digits_of t = t.
Proof.
  induction t as [| x t IH]; cbn [all_digits digits_of]; [reflexivity |].
  intros H. apply andb_prop in H. destruct H as [Hx Ht].
  rewrite Hx. f_equal. now apply IH.
Qed.

Lemma token_extend (d : string) (a : ascii) :
  all_digits d = true -> is_digit a = true -> token_ok (d ++ String a EmptyString).
Proof.
  intros Hd Ha. split.
  - destruct d; discriminate.
  - rewrite all_digits_append, Hd. cbn [all_digits]. now rewrite Ha.
Qed.

(** Every token is a non-empty string of digits, and the tokens hold, in
    order, exactly the digits of the text. *)
Lemma digit_runs_tokens (t : string) (cur : option string) :
  pending_ok cur ->
  Forall token_ok (digit_runs cur t) /\
  fold_right append EmptyString (digit_runs cur t) =
    (pending cur ++ digits_of t)%string.
Proof.
  revert cur. induction t as [| a r IH]; intros cur Hcur.
  - cbn [digit_runs digits_of]. destruct cur as [d |]; cbn [pending fold_right].
    + split; [now constructor | reflexivity].
    + split; [constructor | reflexivity].
  - cbn [digit_runs digits_of]. destruct (is_digit a) eqn:Ha.
    + destruct cur as [d |]; cbn [pending].
      * destruct Hcur as [_ Hd].
        destruct (IH (Some (d ++ String a EmptyString)%string)
                    (token_extend d a Hd Ha)) as [Hf Hc].
        split; [exact Hf |]. rewrite Hc. cbn [pending].
        now rewrite append_assoc.
      * assert (Hok : pending_ok (Some (String a EmptyString))).
        { split; [discriminate |]. cbn [all_digits]. now rewrite Ha. }
        destruct (IH _ Hok) as [Hf Hc].
        split; [exact Hf |]. rewrite Hc. reflexivity.
    + destruct cur as [d |]; cbn [pending].
      * destruct (IH None I) as [Hf Hc]. split.
        -- constructor; [exact Hcur | exact Hf].
        -- cbn [fold_right]. rewrite Hc. reflexivity.
      * destruct (IH None I) as [Hf Hc]. split; [exact Hf | exact Hc].
Qed.

(** A character that is no digit closes the run being read, so the text
    after it is searched on its own. *)
Lemma digit_runs_split (a b : string) (sep : ascii) (cur : option string) :
  is_digit sep = false ->
  digit_runs cur (a ++ String sep b) =
  (digit_runs cur (a ++ String sep EmptyString) ++ digit_runs None b)%list.
Proof.
  intros Hsep. revert cur. induction a as [| x a IH]; intros cur.
  - cbn [append digit_runs]. rewrite Hsep.
    destruct cur; reflexivity.
  - cbn [append digit_runs]. destruct (is_digit x).
    + apply IH.
    + destruct cur; cbn [app]; now rewrite IH.
Qed.

Lemma rows_text_app {X : Type} (row : X -> string) (l1 l2 : list X) :
  rows_text row (l1 ++ l2) = (rows_text row l1 ++ rows_text row l2)%string.
Proof.
  induction l1 as [| x l1 IH]; [reflexivity |].
  unfold rows_text in *. cbn [app fold_right]. rewrite IH.
  now rewrite !append_assoc.
Qed.

End DigitRuns.

(** X12. The number extraction that fills [processing_time.txt] returns
    only non-empty strings of decimal digits, and these hold, in order,
    exactly the digits of the text searched: no digit is lost, repeated or
    reordered. *)
Theorem extracted_numbers_are_the_digits_of_the_text (t : string) :
  Forall (fun token => token <> EmptyString /\ Measures.all_digits token = true)
    (Text.digit_runs None t) /\
  fold_right append EmptyString (Text.digit_runs None t) = Measures.digits_of t.
Proof.
  destruct (digit_runs_tokens t None I) as [Hf Hc]. split.
  - exact Hf.
  - exact Hc.
Qed.

Section NumberFile.
Import Machine Text MyWrite SeqRun Measures.
Variable c : collaborators.
Variable o : options.
Variable perm : permissions.
Hypothesis can_append : perm AfterLoop ForAppend tempo_file = true.
Hypothesis can_read : perm AfterLoop ForRead tempo_file = true.
Hypothesis can_write : perm AfterLoop ForWrite time_file = true.

Lemma put_token_open (name t m : string) :
  (mk_ofstream name true t << m << endl)%stream =
  mk_ofstream name true (t ++ m ++ endl).
Proof. rewrite !put_mk. f_equal. now rewrite append_assoc. Qed.

Lemma put_token_closed (name t m : string) :
  (mk_ofstream name false t << m << endl)%stream = mk_ofstream name false t.
Proof. now rewrite !put_mk_closed. Qed.

(** The disk that a successful end of run leaves. *)
Lemma finish_disk (st : run_state) :
  let tempo_text :=
    ((match disk st tempo_file with Some t => t | None => "" end) ++
     elapsed_text c ++ endl)%string in
  disk (fst (finish c o perm st)) =
  store time_file (number_lines (digit_runs None tempo_text))
    (store tempo_file tempo_text (disk st)).
Proof.
  intros tempo_text. unfold finish, open_app, open_trunc.
  rewrite can_append, can_read, can_write. cbn [is_open fst snd].
  rewrite !put_mk.
  assert (Hclose :
    close (mk_ofstream tempo_file true
             (((match disk st tempo_file with Some t => t | None => "" end) ++
               elapsed_text c) ++ endl)) (disk st) =
    store tempo_file tempo_text (disk st)).
  { unfold close. cbn [is_open os_name os_text]. f_equal.
    unfold tempo_text. now rewrite append_assoc. }
  rewrite Hclose, store_lookup.
  rewrite (fold_rows_open (fun out m => (out << m << endl)%stream) (fun m => m)
             put_token_open).
  cbn [is_open fst disk]. unfold close. cbn [is_open os_name os_text].
  reflexivity.
Qed.

End NumberFile.

(** X13. When the three opens after the loop succeed, [seq_run] appends
    the timing text and a line break to [tempo_time.txt] and replaces the
    text of [processing_time.txt] by the numbers found in the whole of
    [tempo_time.txt] as it then is, one per line. *)
Theorem number_file_lists_the_numbers_of_the_timing_file
    (c : SeqRun.collaborators) (o : SeqRun.options) (perm : SeqRun.permissions)
    (fs : Text.files) :
  perm SeqRun.AfterLoop SeqRun.ForAppend SeqRun.tempo_file = true ->
  perm SeqRun.AfterLoop SeqRun.ForRead SeqRun.tempo_file = true ->
  perm SeqRun.AfterLoop SeqRun.ForWrite SeqRun.time_file = true ->
  let after_loop :=
    SeqRun.disk (SeqRun.event_loop c o perm (SeqRun.initial_state o fs)) in
  let tempo_text :=
    ((match after_loop SeqRun.tempo_file with Some t => t | None => "" end) ++
     SeqRun.elapsed_text c ++ Text.endl)%string in
  let final := SeqRun.disk (fst (SeqRun.seq_run c o perm fs)) in
  final SeqRun.tempo_file = Some tempo_text /\
  final SeqRun.time_file =
    Some (Measures.number_lines (Text.digit_runs None tempo_text)) /\
  (forall name, name <> SeqRun.tempo_file -> name <> SeqRun.time_file ->
                final name = after_loop name).
Proof.
  intros Happ Hread Hwrite after_loop tempo_text final.
  subst final. unfold SeqRun.seq_run.
  rewrite (finish_disk c o perm Happ Hread Hwrite).
  cbv zeta. fold after_loop. fold tempo_text.
  split; [reflexivity |]. split; [apply store_lookup |].
  intros name Htempo Htime. unfold Text.store.
  destruct (String.eqb name SeqRun.time_file) eqn:H1;
    [apply String.eqb_eq in H1; contradiction |].
  destruct (String.eqb name SeqRun.tempo_file) eqn:H2;
    [apply String.eqb_eq in H2; contradiction |].
  reflexivity.
Qed.

Lemma number_file_lists_the_numbers_of_the_timing_file_witness :
  SeqRun.disk
    (fst (SeqRun.seq_run Demo.chain (Demo.opts true) Demo.allow_all Text.no_files))
    SeqRun.time_file =
  Some (Measures.number_lines ["12"]).
Proof.
  exact (proj1 (proj2 (number_file_lists_the_numbers_of_the_timing_file Demo.chain
                         (Demo.opts true) Demo.allow_all Text.no_files
                         eq_refl eq_refl eq_refl))).
Defined.

(** X14. The timing file is only ever appended to, so the number file
    accumulates: when [tempo_time.txt] holds the lines of earlier runs,
    [processing_time.txt] receives the numbers of those lines first,
    followed by the numbers of the timing text of this run. *)
Theorem number_file_accumulates_earlier_runs
    (c : SeqRun.collaborators) (o : SeqRun.options) (perm : SeqRun.permissions)
    (fs : Text.files) (earlier : string) :
  perm SeqRun.AfterLoop SeqRun.ForAppend SeqRun.tempo_file = true ->
  perm SeqRun.AfterLoop SeqRun.ForRead SeqRun.tempo_file = true ->
  perm SeqRun.AfterLoop SeqRun.ForWrite SeqRun.time_file = true ->
  SeqRun.disk (SeqRun.event_loop c o perm (SeqRun.initial_state o fs))
    SeqRun.tempo_file = Some (earlier ++ Text.endl)%string ->
  SeqRun.disk (fst (SeqRun.seq_run c o perm fs)) SeqRun.time_file =
  Some (Measures.number_lines (Text.digit_runs None (earlier ++ Text.endl)) ++
        Measures.number_lines
          (Text.digit_runs None (SeqRun.elapsed_text c ++ Text.endl)))%string.
Proof.
  intros Happ Hread Hwrite Hearlier. unfold SeqRun.seq_run.
  rewrite (finish_disk c o perm Happ Hread Hwrite). cbv zeta.
  rewrite store_lookup, Hearlier. f_equal.
  unfold Measures.number_lines. rewrite <- rows_text_app. f_equal.
  rewrite append_assoc.
  match goal with
  | |- context [Text.digit_runs None (earlier ++ Text.endl ++ ?r)%string] =>
      change (earlier ++ Text.endl ++ r)%string
        with (earlier ++ String Text.newline r)%string
  end.
  rewrite (digit_runs_split earlier _ Text.newline None) by reflexivity.
  reflexivity.
Qed.

(** The sample run started on a disk whose timing file holds the line of
    an earlier run. *)
Lemma number_file_accumulates_earlier_runs_witness :
  SeqRun.disk
    (fst (SeqRun.seq_run Demo.chain (Demo.opts true) Demo.allow_all
            (Text.store SeqRun.tempo_file ("Wall time 7 ms" ++ Text.endl) Text.no_files)))
    SeqRun.time_file =
  Some (Measures.number_lines ["7"] ++ Measures.number_lines ["12"])%string.
Proof.
  exact (number_file_accumulates_earlier_runs Demo.chain (Demo.opts true)
           Demo.allow_all
           (Text.store SeqRun.tempo_file ("Wall time 7 ms" ++ Text.endl) Text.no_files)
           "Wall time 7 ms" eq_refl eq_refl eq_refl
           ltac:(vm_compute; reflexivity)).
Defined.

(** ** The seed dumps of an event *)

Lemma length_append (a b : string) :
  String.length (a ++ b) = (String.length a + String.length b)%nat.
Proof.
  induction a as [| x a IH]; cbn [append String.length]; [reflexivity |].
  now rewrite IH.
Qed.

(** The CPU and the accelerator seed files of an event are different
    files. *)
Lemma seed_dumps_differ {link scalar : Type} (io : MyWrite.text_io link scalar)
    (event : Z) (out : string) :
  MyWrite.seeds_filename io event (out ++ "cpu/") "" <>
  MyWrite.seeds_filename io event (out ++ "cuda/") "".
Proof.
  intros H. apply (f_equal String.length) in H.
  unfold MyWrite.seeds_filename in H. rewrite !length_append in H.
  cbn [String.length] in H. lia.
Qed.

(** X15. Also with the CPU cross-check disabled every event writes a seed
    file under the [cpu/] directory: when that file can be opened it is
    left holding the header line and no row. *)
Theorem disabled_cross_check_still_dumps_a_header_only_cpu_file
    (c : SeqRun.collaborators) (o : SeqRun.options) (perm : SeqRun.permissions)
    (event : Z) (st : SeqRun.run_state) :
  let cpu_file :=
    MyWrite.seeds_filename (SeqRun.io c) event (SeqRun.output_directory o ++ "cpu/") "" in
  SeqRun.compare_with_cpu o = false ->
  perm (SeqRun.InEvent event) SeqRun.ForWrite cpu_file = true ->
  SeqRun.disk (SeqRun.process_event c o perm event st) cpu_file =
  Some (MyWrite.seeds_header ++ Text.endl)%string.
Proof.
  intros cpu_file Hoff Hopen.
  assert (Hdisk :
    SeqRun.disk (SeqRun.process_event c o perm event st) =
    MyWrite.mywrite (SeqRun.io c) (perm (SeqRun.InEvent event) SeqRun.ForWrite) event
      (SeqRun.output_directory o ++ "cuda/")
      (SeqRun.sa_cuda c (fst (SeqRun.read_spacepoints c event (SeqRun.directory o)))) ""
      (MyWrite.mywrite (SeqRun.io c) (perm (SeqRun.InEvent event) SeqRun.ForWrite)
         event (SeqRun.output_directory o ++ "cpu/") [] "" (SeqRun.disk st))).
  { unfold SeqRun.process_event. rewrite Hoff. reflexivity. }
  rewrite Hdisk, !mywrite_store. fold cpu_file. rewrite Hopen.
  assert (Hne : String.eqb cpu_file
                  (MyWrite.seeds_filename (SeqRun.io c) event
                     (SeqRun.output_directory o ++ "cuda/") "") = false).
  { apply String.eqb_neq. apply seed_dumps_differ. }
  destruct (perm (SeqRun.InEvent event) SeqRun.ForWrite
              (MyWrite.seeds_filename (SeqRun.io c) event
                 (SeqRun.output_directory o ++ "cuda/") "")).
  - unfold Text.store at 1. rewrite Hne. rewrite store_lookup. reflexivity.
  - rewrite store_lookup. reflexivity.
Qed.

Lemma disabled_cross_check_still_dumps_a_header_only_cpu_file_witness :
  SeqRun.disk
    (SeqRun.process_event Demo.chain (Demo.opts false) Demo.allow_all 0
       (SeqRun.initial_state (Demo.opts false) Text.no_files))
    "data/out/cpu/event0-seeds.txt" =
  Some (MyWrite.seeds_header ++ Text.endl)%string.
Proof.
  exact (disabled_cross_check_still_dumps_a_header_only_cpu_file Demo.chain
           (Demo.opts false) Demo.allow_all 0
           (SeqRun.initial_state (Demo.opts false) Text.no_files) eq_refl eq_refl).
Defined.

(** * Further properties of the truth-fitting example *)

Section TruthFitMore.
Import Machine SeqRun TruthFit Measures.
Variable c : TruthFit.collaborators.
Variable o : TruthFit.options.

Lemma truth_event_loop_fold (st : TruthFit.run_state) :
  TruthFit.event_loop c o st =
  fold_left (fun s e => TruthFit.process_event c o e s)
    (Loop.visited 32 (uint32 (TruthFit.events o + TruthFit.skip o))
       (Loop.wrap_lt 32 (TruthFit.events o + TruthFit.skip o) Loop.width_32)
       (TruthFit.skip o)) st.
Proof. unfold TruthFit.event_loop. apply for_range_fold. Qed.

Lemma truth_event_loop_invariant (P : TruthFit.run_state -> Prop)
    (st : TruthFit.run_state) :
  (forall e s, P s -> P (TruthFit.process_event c o e s)) ->
  P st -> P (TruthFit.event_loop c o st).
Proof.
  intros Hstep. rewrite truth_event_loop_fold.
  generalize (Loop.visited 32 (uint32 (TruthFit.events o + TruthFit.skip o))
                (Loop.wrap_lt 32 (TruthFit.events o + TruthFit.skip o) Loop.width_32)
                (TruthFit.skip o)).
  intros l. revert st. induction l as [| e l IH]; intros st H; cbn [fold_left].
  - exact H.
  - apply IH. now apply Hstep.
Qed.

(** Every step of an event meets [P] when the steps that an event can
    produce do. *)
Lemma truth_process_event_steps (P : TruthFit.action -> Prop) (e : Z)
    (st : TruthFit.run_state) :
  Forall P (TruthFit.trace st) ->
  P (Step (CopyToDevice Candidates the_stream)) ->
  P (Step (AllocNavigation
             (mk_nav e (size (generate_truth_candidates c e (input_directory o)))))) ->
  P (Step (Launch Fitting the_stream
             (Some (mk_nav e (size (generate_truth_candidates c e (input_directory o))))))) ->
  P (Step (CopyToHost States)) ->
  (run_cpu o = true ->
   P (Step (HostStage Fitting)) /\ P (Step (Banner e)) /\ P (Step (Comparator States))) ->
  P (Step (PerfWrite Fitting e)) ->
  Forall P (TruthFit.trace (TruthFit.process_event c o e st)).
Proof.
  intros Hst H1 H2 H3 H4 Hcpu Hperf. unfold TruthFit.process_event. cbn [TruthFit.trace].
  rewrite !Forall_app. repeat split.
  - exact Hst.
  - repeat constructor; assumption.
  - destruct (run_cpu o); [| constructor].
    destruct (Hcpu eq_refl) as (Ha & Hb & Hc). repeat constructor; assumption.
  - destruct (check_performance o); [| constructor].
    apply Forall_forall. intros a Ha. apply in_map_iff in Ha.
    destruct Ha as [x [<- _]]. exact Hperf.
Qed.

End TruthFitMore.

(** X16. In the truth-fitting example without the CPU fit ([run-cpu]
    false) the CPU counter of fitted tracks is zero at the end, the host
    fitting is never run and the comparator is never invoked. *)
Theorem truth_fitting_without_cpu_leaves_cpu_counter_zero
    (c : TruthFit.collaborators) (o : TruthFit.options) :
  TruthFit.run_cpu o = false ->
  let final := fst (TruthFit.main c o) in
  TruthFit.n_fitted_tracks (TruthFit.counters final) = 0 /\
  In (TruthFit.PrintFitStatistics (TruthFit.counters final)) (TruthFit.trace final) /\
  (forall a, In (TruthFit.Step a) (TruthFit.trace final) -> SeqRun.cpu_side a = false).
Proof.
  intros Hoff final.
  set (P := fun a => match a with
                     | TruthFit.Step b => SeqRun.cpu_side b = false
                     | TruthFit.PrintFitStatistics _ => True
                     end).
  assert (Hloop :
    TruthFit.n_fitted_tracks
      (TruthFit.counters
         (TruthFit.event_loop c o (TruthFit.mk_state (TruthFit.mk_stats 0 0) []))) = 0 /\
    Forall P (TruthFit.trace
                (TruthFit.event_loop c o (TruthFit.mk_state (TruthFit.mk_stats 0 0) [])))).
  { apply (truth_event_loop_invariant c o
             (fun st => TruthFit.n_fitted_tracks (TruthFit.counters st) = 0 /\
                        Forall P (TruthFit.trace st))).
    - intros e s [H0 Htr]. split.
      + unfold TruthFit.process_event. rewrite Hoff.
        cbn [TruthFit.counters TruthFit.n_fitted_tracks]. rewrite H0. reflexivity.
      + apply truth_process_event_steps; try exact Htr; try reflexivity.
        rewrite Hoff. discriminate.
    - split; [reflexivity | constructor]. }
  destruct Hloop as [H0 Htr].
  subst final. unfold TruthFit.main. cbn [fst TruthFit.counters TruthFit.trace].
  split; [exact H0 |]. split.
  - rewrite !in_app_iff. cbn [In]. tauto.
  - intros a Hin. rewrite !in_app_iff in Hin. rewrite Forall_forall in Htr.
    destruct Hin as [Hin | [Hin | Hin]].
    + exact (Htr _ Hin).
    + destruct (TruthFit.check_performance o); cbn [In] in Hin;
        [destruct Hin as [Heq | []]; inversion Heq; reflexivity | contradiction].
    + cbn [In] in Hin. destruct Hin as [Heq | []]. discriminate Heq.
Qed.

Lemma truth_fitting_without_cpu_leaves_cpu_counter_zero_witness :
  TruthFit.n_fitted_tracks
    (TruthFit.counters
       (fst (TruthFit.main Demo.truth (TruthFit.mk_options 2 3 "in/" false true)))) = 0.
Proof.
  exact (proj1 (truth_fitting_without_cpu_leaves_cpu_counter_zero Demo.truth
                  (TruthFit.mk_options 2 3 "in/" false true) eq_refl)).
Defined.

(** X17. In the truth-fitting example every navigation buffer is created
    with exactly as many entries as the event has truth candidates, the
    fitting stage is launched with that buffer, and nothing is launched
    without one. *)
Theorem truth_fitting_navigation_buffer_matches_candidates
    (c : TruthFit.collaborators) (o : TruthFit.options) :
  let steps := TruthFit.trace (fst (TruthFit.main c o)) in
  let candidates e :=
    TruthFit.generate_truth_candidates c e (TruthFit.input_directory o) in
  (forall nav, In (TruthFit.Step (SeqRun.AllocNavigation nav)) steps ->
               SeqRun.nav_size nav = SeqRun.size (candidates (SeqRun.nav_event nav))) /\
  (forall g s nav, In (TruthFit.Step (SeqRun.Launch g s nav)) steps ->
     g = SeqRun.Fitting /\ s = SeqRun.the_stream /\
     exists b, nav = Some b /\
               SeqRun.nav_size b = SeqRun.size (candidates (SeqRun.nav_event b))).
Proof.
  intros steps candidates.
  set (P := fun a =>
    match a with
    | TruthFit.Step (SeqRun.AllocNavigation nav) =>
        SeqRun.nav_size nav = SeqRun.size (candidates (SeqRun.nav_event nav))
    | TruthFit.Step (SeqRun.Launch g s nav) =>
        g = SeqRun.Fitting /\ s = SeqRun.the_stream /\
        exists b, nav = Some b /\
                  SeqRun.nav_size b = SeqRun.size (candidates (SeqRun.nav_event b))
    | _ => True
    end).
  assert (Hall : Forall P steps).
  { subst steps. unfold TruthFit.main. cbn [fst TruthFit.trace].
    rewrite !Forall_app. repeat split.
    - apply (truth_event_loop_invariant c o
               (fun st => Forall P (TruthFit.trace st))); [| constructor].
      intros e s Hs. apply truth_process_event_steps; try exact Hs; cbn; trivial.
      + repeat split. eexists. split; reflexivity.
      + intros _. repeat split.
    - destruct (TruthFit.check_performance o); repeat constructor.
    - repeat constructor. }
  rewrite Forall_forall in Hall. split.
  - intros nav Hin. exact (Hall _ Hin).
  - intros g s nav Hin. exact (Hall _ Hin).
Qed.

Section TruthFitSums.
Import Machine SeqRun TruthFit Measures.
Variable c : TruthFit.collaborators.
Variable o : TruthFit.options.

Lemma truth_fold_counter (get : TruthFit.stats -> Z) (f : Z -> Z) :
  (forall e st, get (TruthFit.counters (TruthFit.process_event c o e st)) =
                uint64 (get (TruthFit.counters st) + f e)) ->
  forall l st,
    0 <= get (TruthFit.counters st) < 2 ^ 64 ->
    get (TruthFit.counters (fold_left (fun s e => TruthFit.process_event c o e s) l st)) =
    uint64 (get (TruthFit.counters st) + total f l).
Proof.
  intros Hstep. induction l as [| e l IH]; intros st Hrange.
  - cbn [fold_left total fold_right]. rewrite Z.add_0_r.
    unfold uint64, wrap. now rewrite Z.mod_small.
  - rewrite fold_left_cons, IH by (rewrite Hstep; apply uint64_range).
    rewrite Hstep. unfold total. cbn [fold_right]. unfold uint64, wrap.
    rewrite Zplus_mod_idemp_l. f_equal. lia.
Qed.

End TruthFitSums.

(** X18. When the event range is representable in an [unsigned int], the
    accelerator counter printed by the truth-fitting example is the sum,
    over the events of the range and reduced modulo 2^64, of the numbers
    of tracks that the accelerator fitting returned for the truth
    candidates of each event; with the CPU fit enabled the CPU counter is
    the same sum for the host fitting. *)
Theorem truth_fitting_counters_are_sums_over_the_events
    (c : TruthFit.collaborators) (o : TruthFit.options) :
  0 <= TruthFit.skip o -> 0 <= TruthFit.events o ->
  TruthFit.skip o + TruthFit.events o < 2 ^ 32 ->
  let range := Loop.indices (TruthFit.skip o) (Z.to_nat (TruthFit.events o)) in
  let final := TruthFit.counters (fst (TruthFit.main c o)) in
  let candidates e :=
    TruthFit.generate_truth_candidates c e (TruthFit.input_directory o) in
  TruthFit.n_fitted_tracks_cuda final =
    Machine.uint64
      (Measures.total
         (fun e => SeqRun.size
                     (TruthFit.device_fitting c
                        (SeqRun.mk_nav e (SeqRun.size (candidates e))) (candidates e)))
         range) /\
  (TruthFit.run_cpu o = true ->
   TruthFit.n_fitted_tracks final =
     Machine.uint64
       (Measures.total
          (fun e => SeqRun.size (TruthFit.host_fitting c (candidates e))) range)).
Proof.
  intros Hs Hn Hsum range final candidates.
  assert (Hfinal : final =
            TruthFit.counters
              (fold_left (fun s e => TruthFit.process_event c o e s) range
                 (TruthFit.mk_state (TruthFit.mk_stats 0 0) []))).
  { subst final. unfold TruthFit.main. cbn [fst TruthFit.counters].
    rewrite truth_event_loop_fold. f_equal. f_equal.
    apply visited_indices; [exact Hs |].
    unfold Machine.uint32, Machine.wrap. rewrite Z.mod_small; lia. }
  rewrite Hfinal. split.
  - rewrite (truth_fold_counter c o TruthFit.n_fitted_tracks_cuda
               (fun e => SeqRun.size
                           (TruthFit.device_fitting c
                              (SeqRun.mk_nav e (SeqRun.size (candidates e)))
                              (candidates e))));
      [reflexivity | reflexivity | cbn; lia].
  - intros Hon.
    rewrite (truth_fold_counter c o TruthFit.n_fitted_tracks
               (fun e => SeqRun.size (TruthFit.host_fitting c (candidates e))));
      [reflexivity | | cbn; lia].
    intros e st. unfold TruthFit.process_event. rewrite Hon. reflexivity.
Qed.

(** The sample run fits one truth candidate in each of its three events. *)
Lemma truth_fitting_counters_are_sums_over_the_events_witness :
  TruthFit.n_fitted_tracks_cuda
    (TruthFit.counters (fst (TruthFit.main Demo.truth Demo.truth_opts))) = 3.
Proof.
  exact (proj1 (truth_fitting_counters_are_sums_over_the_events Demo.truth
                  Demo.truth_opts ltac:(simpl; lia) ltac:(simpl; lia)
                  ltac:(simpl; lia))).
Defined.

(** * Further properties of the pile-up simulation *)

Section SimulationFacts.
Import Machine PileUp.
Variable R : random_source.
Variable c : collaborators R.

Lemma indices_snoc (first : Z) (n : nat) :
  Loop.indices first (S n) = (Loop.indices first n ++ [first + Z.of_nat n])%list.
Proof.
  unfold Loop.indices. rewrite seq_S, map_app. reflexivity.
Qed.

(** The writer numbers the particles consecutively and keeps them in the
    order in which the tracks arrive. *)
Lemma simulate_tracks_written (tracks : list (track c))
    (ws : writer_state R c) (sc : scatterer c) (first : Z) :
  particle_id R c ws = first + Z.of_nat (List.length (particles R c ws)) ->
  written_ids ws = Loop.indices first (List.length (particles R c ws)) ->
  particle_id R c (fst (simulate_tracks R c tracks (ws, sc))) =
    first + Z.of_nat
              (List.length (particles R c (fst (simulate_tracks R c tracks (ws, sc))))) /\
  written_ids (fst (simulate_tracks R c tracks (ws, sc))) =
    Loop.indices first
      (List.length (particles R c (fst (simulate_tracks R c tracks (ws, sc))))) /\
  written_tracks (fst (simulate_tracks R c tracks (ws, sc))) =
    (written_tracks ws ++ tracks)%list.
Proof.
  revert ws sc. induction tracks as [| trk rest IH]; intros ws sc Hid Hids;
    cbn [simulate_tracks].
  - cbn [fst]. repeat split; [exact Hid | exact Hids | now rewrite app_nil_r].
  - destruct (propagate c sc trk) as [hits sc'].
    specialize (IH (mk_writer_state R c (particle_id R c ws + 1)
                      (particles R c ws ++ [(particle_id R c ws, trk, hits)])%list) sc').
    cbn [particle_id particles] in IH.
    destruct IH as (H1 & H2 & H3).
    + rewrite length_app. cbn [List.length]. lia.
    + unfold written_ids in *. cbn [particles]. rewrite map_app, Hids.
      cbn [map fst]. rewrite length_app. cbn [List.length].
      rewrite Nat.add_1_r, indices_snoc. f_equal. f_equal. lia.
    + repeat split; [exact H1 | exact H2 |].
      rewrite H3. unfold written_tracks. cbn [particles].
      rewrite map_app. cbn [map fst snd]. now rewrite <- app_assoc.
Qed.

End SimulationFacts.

Section EventFacts.
Import Machine PileUp.
Variable R : random_source.
Variable c : collaborators R.

Lemma simulate_generators_written (gens : list (generator c))
    (ws : writer_state R c) (sc : scatterer c) (first : Z) :
  particle_id R c ws = first + Z.of_nat (List.length (particles R c ws)) ->
  written_ids ws = Loop.indices first (List.length (particles R c ws)) ->
  let ws' := fst (fst (simulate_generators R c gens (ws, sc))) in
  particle_id R c ws' = first + Z.of_nat (List.length (particles R c ws')) /\
  written_ids ws' = Loop.indices first (List.length (particles R c ws')) /\
  written_tracks ws' =
    (written_tracks ws ++
     List.concat (map (fun gen => fst (generate c gen)) gens))%list.
Proof.
  revert ws sc. induction gens as [| gen gens IH]; intros ws sc Hid Hids; cbv zeta.
  - cbn [simulate_generators fst map List.concat]. repeat split;
      [exact Hid | exact Hids | now rewrite app_nil_r].
  - cbn [simulate_generators fst].
    destruct (simulate_tracks_written R c (fst (generate c gen)) ws sc first Hid Hids)
      as (H1 & H2 & H3).
    destruct (simulate_tracks R c (fst (generate c gen)) (ws, sc)) as [ws1 sc1].
    cbn [fst] in H1, H2, H3.
    destruct (IH ws1 sc1 H1 H2) as (K1 & K2 & K3).
    repeat split; [exact K1 | exact K2 |].
    rewrite K3, H3. cbn [map List.concat]. now rewrite <- app_assoc.
Qed.

End EventFacts.

Lemma NoDup_map_injective {X Y : Type} (f : X -> Y) (l : list X) :
  (forall a b, In a l -> In b l -> f a = f b -> a = b) ->
  NoDup l -> NoDup (map f l).
Proof.
  intros Hinj Hnd. induction Hnd as [| x l Hx Hnd IH]; cbn [map]; constructor.
  - intros Hin. apply in_map_iff in Hin. destruct Hin as [y [Hy Hiny]].
    assert (y = x) by (apply Hinj; [now right | now left | exact Hy]).
    subst y. contradiction.
  - apply IH. intros a b Ha Hb. apply Hinj; now right.
Qed.

Lemma indices_NoDup (first : Z) (n : nat) : NoDup (Loop.indices first n).
Proof.
  unfold Loop.indices. apply NoDup_map_injective; [| apply seq_NoDup].
  intros a b _ _ H. lia.
Qed.

(** X19. In every simulated event the particles written are the tracks
    that the pass over the main generator yields, followed by the tracks
    of the pass over each pile-up generator, in the order of the
    generators, and they carry consecutive ids starting from the first id
    of a fresh writer state.  The event leaves every generator as its pass
    left it. *)
Theorem event_particles_follow_the_generators
    (R : PileUp.random_source) (c : PileUp.collaborators R)
    (event_id : Z) (main : PileUp.main_generator c)
    (gens : list (PileUp.generator c)) :
  let event := PileUp.simulate_event R c event_id main gens in
  let ws := fst (fst event) in
  let all_tracks :=
    (fst (PileUp.main_pass c main) ++
     List.concat (map (fun gen => fst (PileUp.generate c gen)) gens))%list in
  PileUp.written_tracks ws = all_tracks /\
  PileUp.written_ids ws =
    Loop.indices (PileUp.first_particle_id c) (List.length all_tracks) /\
  PileUp.particle_id R c ws =
    PileUp.first_particle_id c + Z.of_nat (List.length all_tracks) /\
  snd (fst event) = snd (PileUp.main_pass c main) /\
  snd event = map (fun gen => snd (PileUp.generate c gen)) gens.
Proof.
  intros event ws all_tracks. subst event ws all_tracks.
  unfold PileUp.simulate_event. cbn [fst snd].
  destruct (simulate_tracks_written R c (fst (PileUp.main_pass c main))
              (PileUp.mk_writer_state R c (PileUp.first_particle_id c) [])
              (PileUp.set_seed c event_id) (PileUp.first_particle_id c))
    as (H1 & H2 & H3); [cbn; lia | reflexivity |].
  destruct (PileUp.simulate_tracks R c (fst (PileUp.main_pass c main))
              (PileUp.mk_writer_state R c (PileUp.first_particle_id c) [],
               PileUp.set_seed c event_id)) as [ws1 sc1].
  cbn [fst] in H1, H2, H3.
  destruct (simulate_generators_written R c gens ws1 sc1 _ H1 H2) as (K1 & K2 & K3).
  set (final := fst (fst (PileUp.simulate_generators R c gens (ws1, sc1)))) in *.
  assert (Htracks : PileUp.written_tracks final =
                    (fst (PileUp.main_pass c main) ++
                     List.concat (map (fun gen => fst (PileUp.generate c gen)) gens))%list).
  { rewrite K3, H3. reflexivity. }
  assert (Hlen : List.length (PileUp.particles R c final) =
                 List.length
                   (fst (PileUp.main_pass c main) ++
                    List.concat (map (fun gen => fst (PileUp.generate c gen)) gens))%list).
  { rewrite <- Htracks. unfold PileUp.written_tracks. now rewrite length_map. }
  rewrite Hlen in K1, K2.
  split; [exact Htracks |]. split; [exact K2 |]. split; [exact K1 |].
  split; [reflexivity | apply simulate_generators_after].
Qed.

(** X20. The generators are members of the simulator and keep their state
    from one event to the next: for an event count below 2^64, [run]
    produces one writer state per event index from 0 on, and the state of
    event [k] is what that event gives on the main generator and the
    pile-up generators after [k] passes each, with the scatterer alone
    set anew from the event number. *)
Theorem run_continues_the_generators
    (R : PileUp.random_source) (c : PileUp.collaborators R) (m_events : Z)
    (main : PileUp.main_generator c)
    (pu : list (PileUp.configuration (PileUp.coordinate R))) :
  0 <= m_events < 2 ^ 64 ->
  PileUp.run R c m_events main pu =
    map (fun k =>
           fst (fst (PileUp.simulate_event R c (Z.of_nat k)
                       (PileUp.main_after_passes R c main k)
                       (map (fun gen => PileUp.after_passes R c gen k)
                          (map (PileUp.make_generator c) pu)))))
      (seq 0 (Z.to_nat m_events)) /\
  List.length (PileUp.run R c m_events main pu) = Z.to_nat m_events.
Proof.
  intros Hm.
  assert (Hu : Machine.uint64 m_events = m_events)
    by (unfold Machine.uint64, Machine.wrap; apply Z.mod_small; lia).
  rewrite run_states, Hu. split; [reflexivity |].
  now rewrite length_map, length_seq.
Qed.

(** Two events over two pile-up vertices of three tracks: the second
    event writes the tracks that follow those of the first. *)
Lemma run_continues_the_generators_witness :
  map PileUp.written_tracks
    (PileUp.run Demo.rng Demo.sim 2 0 (PileUp.setup_pu Demo.rng Demo.sim 1 2 3)) =
  [[100; 42; 43; 44; 43; 44; 45]; [101; 45; 46; 47; 46; 47; 48]].
Proof.
  rewrite (proj1 (run_continues_the_generators Demo.rng Demo.sim 2 0
                    (PileUp.setup_pu Demo.rng Demo.sim 1 2 3) ltac:(lia))).
  vm_compute. reflexivity.
Defined.

(** X21. For a vertex count that is zero or negative [setup_pu] leaves no
    pile-up generator, whatever the random device returns. *)
Theorem setup_pu_without_vertices_is_empty
    (R : PileUp.random_source) (c : PileUp.collaborators R)
    (entropy nvtx ntrk : Z) :
  - 2 ^ 31 <= nvtx <= 0 ->
  PileUp.setup_pu R c entropy nvtx ntrk = [].
Proof.
  intros Hn. unfold PileUp.setup_pu. rewrite for_range_fold.
  rewrite visited_empty; [reflexivity |].
  unfold Machine.int32. rewrite Z.mod_small; lia.
Qed.

Lemma setup_pu_without_vertices_is_empty_witness :
  PileUp.setup_pu Demo.rng Demo.sim 5 (-3) 4 = [].
Proof.
  exact (setup_pu_without_vertices_is_empty Demo.rng Demo.sim 5 (-3) 4 ltac:(lia)).
Defined.

(** X22. When the conversion into the seed type of the generator tells
    apart the values from the default seed up to the default seed plus
    the number of vertices, the pile-up generators that [setup_pu] creates
    all have different seeds. *)
Theorem pile_up_generators_have_distinct_seeds
    (R : PileUp.random_source) (c : PileUp.collaborators R)
    (entropy nvtx ntrk : Z) :
  (forall a b,
     0 <= a < Machine.int32 nvtx -> 0 <= b < Machine.int32 nvtx ->
     PileUp.seed_cast c (PileUp.default_seed c + a) =
     PileUp.seed_cast c (PileUp.default_seed c + b) -> a = b) ->
  NoDup (map PileUp.seed (PileUp.setup_pu R c entropy nvtx ntrk)).
Proof.
  intros Hinj.
  assert (Hseed : map PileUp.seed (PileUp.setup_pu R c entropy nvtx ntrk) =
                  map (fun i => PileUp.seed_cast c (PileUp.default_seed c + i))
                    (Loop.indices 0 (Z.to_nat (Machine.int32 nvtx)))).
  { pose proof (setup_pu_fixed_part R c entropy nvtx ntrk) as H.
    apply (f_equal (map (fun t => snd (fst (fst (fst t)))))) in H.
    rewrite !map_map in H. exact H. }
  rewrite Hseed. apply NoDup_map_injective; [| apply indices_NoDup].
  intros a b Ha Hb H. apply in_indices in Ha. apply in_indices in Hb.
  apply Hinj; [lia | lia | exact H].
Qed.

(** Three vertices with a 64-bit seed type: the seeds 42, 43 and 44 are
    kept apart by the reduction modulo 2^64. *)
Lemma pile_up_generators_have_distinct_seeds_witness :
  NoDup (map PileUp.seed (PileUp.setup_pu Demo.rng Samples.sim64 1 3 2)).
Proof.
  apply (pile_up_generators_have_distinct_seeds Demo.rng Samples.sim64 1 3 2).
  intros a b Ha Hb.
  change (Machine.int32 3) with 3 in Ha, Hb.
  change (PileUp.default_seed Samples.sim64) with 42.
  change (PileUp.seed_cast Samples.sim64) with Machine.uint64.
  unfold Machine.uint64, Machine.wrap.
  rewrite !Z.mod_small by lia. lia.
Defined.

(** * Further properties of the comparison inside the run *)




Section Agreement.
Import Machine Text MyWrite SeqRun.
Variable c : collaborators.
Variable o : options.
Variable perm : permissions.
Hypothesis enabled : compare_with_cpu o = true.
Hypothesis same_seeding : forall sps, sa_cuda c sps = sa c sps.
Hypothesis same_params : forall sps seeds bz, tp_cuda c sps seeds bz = tp c sps seeds bz.
Hypothesis same_finding :
  forall nav meas params, device_finding c nav meas params = host_finding c meas params.
Hypothesis same_fitting :
  forall nav cands, device_fitting c nav cands = host_fitting c cands.

Lemma agreeing_candidates (event : Z) :
  event_cuda_candidates c o event = event_cpu_candidates c o event.
Proof.
  unfold event_cuda_candidates, event_cpu_candidates.
  now rewrite same_finding, same_params, same_seeding.
Qed.

Lemma agreeing_event_counters (event : Z) (st : run_state) :
  n_seeds (counters st) = n_seeds_cuda (counters st) ->
  n_found_tracks (counters st) = n_found_tracks_cuda (counters st) ->
  n_fitted_tracks (counters st) = n_fitted_tracks_cuda (counters st) ->
  n_seeds (counters (process_event c o perm event st)) =
    n_seeds_cuda (counters (process_event c o perm event st)) /\
  n_found_tracks (counters (process_event c o perm event st)) =
    n_found_tracks_cuda (counters (process_event c o perm event st)) /\
  n_fitted_tracks (counters (process_event c o perm event st)) =
    n_fitted_tracks_cuda (counters (process_event c o perm event st)).
Proof.
  intros Hs Hf Ht. unfold process_event. rewrite enabled.
  cbn [counters add_event_stats n_seeds n_seeds_cuda n_found_tracks
       n_found_tracks_cuda n_fitted_tracks n_fitted_tracks_cuda].
  rewrite Hs, Hf, Ht.
  rewrite !same_fitting, !same_finding, !same_params, !same_seeding.
  repeat split.
Qed.

End Agreement.

(** X24. With the cross-check enabled, if every accelerator stage returns
    what its CPU counterpart returns, the two paths hand the same
    candidates to the comparison in every event, the run ends with equal
    CPU and accelerator counters, and, when the equality predicate accepts
    a candidate against itself and an event has fewer than 2^32
    candidates, every CPU candidate of that event is counted as
    matched. *)
Theorem agreeing_stages_give_agreeing_results
    (c : SeqRun.collaborators) (o : SeqRun.options) (perm : SeqRun.permissions)
    (fs : Text.files) :
  SeqRun.compare_with_cpu o = true ->
  (forall sps, SeqRun.sa_cuda c sps = SeqRun.sa c sps) ->
  (forall sps seeds bz, SeqRun.tp_cuda c sps seeds bz = SeqRun.tp c sps seeds bz) ->
  (forall nav meas params,
     SeqRun.device_finding c nav meas params = SeqRun.host_finding c meas params) ->
  (forall nav cands, SeqRun.device_fitting c nav cands = SeqRun.host_fitting c cands) ->
  let final := SeqRun.counters (fst (SeqRun.seq_run c o perm fs)) in
  SeqRun.n_seeds final = SeqRun.n_seeds_cuda final /\
  SeqRun.n_found_tracks final = SeqRun.n_found_tracks_cuda final /\
  SeqRun.n_fitted_tracks final = SeqRun.n_fitted_tracks_cuda final /\
  (forall event,
     SeqRun.event_cuda_candidates c o event = SeqRun.event_cpu_candidates c o event) /\
  (forall event,
     (forall items, SeqRun.is_same_object c items items = true) ->
     SeqRun.size (SeqRun.event_cpu_candidates c o event) < 2 ^ 32 ->
     SeqRun.count_matches c (SeqRun.event_cpu_candidates c o event)
       (SeqRun.event_cuda_candidates c o event) 0 =
     SeqRun.size (SeqRun.event_cpu_candidates c o event)).
Proof.
  intros Hon Hsa Htp Hfind Hfit final.
  assert (Hcounters :
    SeqRun.n_seeds final = SeqRun.n_seeds_cuda final /\
    SeqRun.n_found_tracks final = SeqRun.n_found_tracks_cuda final /\
    SeqRun.n_fitted_tracks final = SeqRun.n_fitted_tracks_cuda final).
  { subst final. unfold SeqRun.seq_run. rewrite finish_counters.
    apply (event_loop_invariant c o perm
             (fun st =>
                SeqRun.n_seeds (SeqRun.counters st) =
                  SeqRun.n_seeds_cuda (SeqRun.counters st) /\
                SeqRun.n_found_tracks (SeqRun.counters st) =
                  SeqRun.n_found_tracks_cuda (SeqRun.counters st) /\
                SeqRun.n_fitted_tracks (SeqRun.counters st) =
                  SeqRun.n_fitted_tracks_cuda (SeqRun.counters st))).
    - intros event s (H1 & H2 & H3).
      now apply (agreeing_event_counters c o perm Hon Hsa Htp Hfind Hfit).
    - repeat split. }
  destruct Hcounters as (H1 & H2 & H3).
  split; [exact H1 |]. split; [exact H2 |]. split; [exact H3 |]. split.
  - intros event. now apply agreeing_candidates.
  - intros event Hrefl Hsmall.
    rewrite (agreeing_candidates c o Hsa Htp Hfind event).
    rewrite count_matches_small by exact Hsmall.
    unfold SeqRun.matched. rewrite filter_all; [reflexivity |].
    intros cand Hin. apply existsb_exists. exists cand. split; [exact Hin |].
    apply Hrefl.
Qed.

Lemma agreeing_stages_give_agreeing_results_witness :
  SeqRun.n_found_tracks
    (SeqRun.counters
       (fst (SeqRun.seq_run Samples.agreeing_chain (Demo.opts true) Demo.allow_all
               Text.no_files))) =
  SeqRun.n_found_tracks_cuda
    (SeqRun.counters
       (fst (SeqRun.seq_run Samples.agreeing_chain (Demo.opts true) Demo.allow_all
               Text.no_files))).
Proof.
  exact (proj1 (proj2
    (agreeing_stages_give_agreeing_results Samples.agreeing_chain (Demo.opts true)
       Demo.allow_all Text.no_files eq_refl
       (fun _ => eq_refl) (fun _ _ _ => eq_refl) (fun _ _ _ => eq_refl)
       (fun _ _ => eq_refl)))).
Defined.
